(** * Dice conversion engine (exercise4/dice.py): shallow embedding and proofs

    The Python classes [DieBase], [DiePerfect], [Die], [DieDivider],
    [DiePower] and [DieCombo] are embedded as Rocq modules of the same
    names.  Python integers are [Z]; a method that mutates its object is a
    computation in a small state-and-exception monad; [while True] loops
    take a fuel argument and answer [OutOfFuel] when it is exhausted. *)

From Stdlib Require Import Ascii String DecimalString DecimalPos DecimalZ.
From Stdlib Require Import ZArith List Lia Bool Permutation FinFun QArith.
Import ListNotations.
Local Open Scope Z_scope.

(* ================================================================== *)
(** * Part 1: the embedding *)
(* ================================================================== *)

(** ** Python primitives *)

Module Py.

Inductive exn : Type :=
| Exception (msg : string)
| ZeroDivisionError
| OverflowError
| StopIteration
| ValueError.

(** Outcome of running a piece of code: a value, a raised exception, or
    a loop that was still running when the fuel ran out. *)
Inductive res (A : Type) : Type :=
| Ok (a : A)
| Raise (e : exn)
| OutOfFuel.

Arguments Ok {A} a.
Arguments Raise {A} e.
Arguments OutOfFuel {A}.

(** [a // b] and [a % b] on ints: floor division, the remainder takes
    the sign of the divisor (as [Z.div] and [Z.modulo] do), and a zero
    divisor raises. *)
Definition floordiv (a b : Z) : res Z :=
  if b =? 0 then Raise ZeroDivisionError else Ok (a / b).

Definition mod_ (a b : Z) : res Z :=
  if b =? 0 then Raise ZeroDivisionError else Ok (a mod b).

(** [range(a, b)] as the list of its elements. *)
Definition range (a b : Z) : list Z :=
  map (fun i => a + Z.of_nat i) (seq 0 (Z.to_nat (b - a))).

(** [sum(l)]: left-to-right accumulation from 0. *)
Definition sum (l : list Z) : Z := fold_left Z.add l 0.

(** [enumerate(l)]. *)
Definition enumerate {A : Type} (l : list A) : list (Z * A) :=
  combine (map Z.of_nat (seq 0 (length l))) l.

(** [str(n)] / ['{}'.format(n)] for an int: decimal digits, a leading
    minus sign for negatives. *)
Definition str (z : Z) : string := NilZero.string_of_int (Z.to_int z).

(** *** Floats

    A finite binary64 value is kept as [mant * 2 ^ expo].  [a / b] on
    two ints (true division, in force through
    [from __future__ import division]) is the exact quotient rounded to
    the nearest binary64 value, ties to even; it raises
    [ZeroDivisionError] for [b = 0] and [OverflowError] when the rounded
    quotient does not fit. *)
Record float : Type := mkfloat { mant : Z; expo : Z }.

(** Nearest integer to [n / d] for [d > 0], ties to the even one. *)
Definition round_half_even (n d : Z) : Z :=
  let q := n / d in
  let r := n mod d in
  if 2 * r <? d then q
  else if d <? 2 * r then q + 1
  else if Z.even q then q else q + 1.

(** [floor (log2 (a / b))] for positive [a] and [b]. *)
Definition ilog2_quot (a b : Z) : Z :=
  let e0 := Z.log2 a - Z.log2 b in
  if a * 2 ^ Z.max 0 (- e0) <? b * 2 ^ Z.max 0 e0 then e0 - 1 else e0.

Definition truediv (a b : Z) : res float :=
  if b =? 0 then Raise ZeroDivisionError
  else if a =? 0 then Ok (mkfloat 0 0)
  else
    let s := Z.sgn a * Z.sgn b in
    let a' := Z.abs a in
    let b' := Z.abs b in
    let e := ilog2_quot a' b' in
    (* 53 significant bits; below 2^-1022 the spacing stays 2^-1074 *)
    let sh := Z.max (e - 52) (-1074) in
    let m := round_half_even (a' * 2 ^ Z.max 0 (- sh)) (b' * 2 ^ Z.max 0 sh) in
    if 2 ^ 1024 <=? m * 2 ^ Z.max 0 sh then Raise OverflowError
    else Ok (mkfloat (s * m) sh).

(** [math.ceil(x)] on a finite float: the exact integer ceiling. *)
Definition ceil (x : float) : Z :=
  if 0 <=? expo x then mant x * 2 ^ expo x
  else - ((- mant x) / 2 ^ (- expo x)).

(** *** Stateful code

    A method of an object whose mutable state has type [St]. *)
Definition M (St A : Type) : Type := St -> res (A * St).

Definition ret {St A : Type} (a : A) : M St A := fun st => Ok (a, st).

Definition bind {St A B : Type} (m : M St A) (k : A -> M St B) : M St B :=
  fun st =>
    match m st with
    | Ok (a, st') => k a st'
    | Raise e => Raise e
    | OutOfFuel => OutOfFuel
    end.

(** Lift a stateless outcome. *)
Definition lift {St A : Type} (r : res A) : M St A :=
  fun st =>
    match r with
    | Ok a => Ok (a, st)
    | Raise e => Raise e
    | OutOfFuel => OutOfFuel
    end.

End Py.

Import Py.

Declare Scope py_scope.
Delimit Scope py_scope with py.
Notation "x <- c ;; k" := (bind c (fun x => k))
  (at level 61, c at next level, right associativity) : py_scope.
Local Open Scope py_scope.

(** ** class DieBase *)

Module DieBase.

(** What a derived die uses of its [source]: the [sides] property and
    the [roll] method, acting on the source object's state [St]. *)
Record t (St : Type) : Type := mk { sides : Z; roll : M St Z }.

Arguments mk {St} sides roll.
Arguments sides {St} _.
Arguments roll {St} _.

(** [[self.roll() for i in range(0, n)]] *)
Fixpoint rolls {St : Type} (roll : M St Z) (n : nat) : M St (list Z) :=
  match n with
  | O => ret []
  | S n' => r <- roll ;; rs <- rolls roll n' ;; ret (r :: rs)
  end.

(** [__call__(self, count)] *)
Definition call {St : Type} (self : t St) (count : Z) : M St (list Z) :=
  rolls (roll self) (Z.to_nat count).

End DieBase.

(** ** class DiePerfect *)

Module DiePerfect.

(** [DiePerfect.__each(current, ranges)].  [current] (a list) and
    [ranges] (a deque) are mutated in place, so both are threaded
    through and returned next to the result.  The fuel bounds the
    recursion depth. *)
Fixpoint each (fuel : nat) (current : list Z) (ranges : list (list Z))
  : option (list Z * list Z * list (list Z)) :=
  match fuel with
  | O => None
  | S fuel' =>
      match ranges with
      | [] => Some (current, current, ranges)
      | range :: ranges1 =>                     (* ranges.popleft() *)
          let body acc i :=
            match acc with
            | None => None
            | Some (results, current, ranges) =>
                (* current.append(i) *)
                match each fuel' (current ++ [i]) ranges with
                | None => None
                | Some (r, current', ranges') =>
                    (* results.extend(r); current.pop() *)
                    Some (results ++ r, removelast current', ranges')
                end
            end in
          match fold_left body range (Some ([], current, ranges1)) with
          | None => None
          | Some (results, current', ranges') =>
              Some (results, current', range :: ranges')  (* appendleft *)
          end
      end
  end.

(** [itertools.cycle(items)]: the saved items and the position of the
    next one. *)
Record cycle : Type := mkcycle { saved : list Z; pos : nat }.

Definition next (c : cycle) : res (Z * cycle) :=
  match saved c with
  | [] => Raise StopIteration
  | x :: _ =>
      Ok (nth (pos c) (saved c) x,
          mkcycle (saved c) (Nat.modulo (S (pos c)) (length (saved c))))
  end.

Record t : Type := mk {
  sides : Z;
  num_dice : Z;
  num_rolls : Z;
  rolls : cycle
}.

(** [__init__(self, sides, num_dice=1)] *)
Definition init (sides num_dice : Z) : res t :=
  let ranges := map (fun _ => Py.range 1 (sides + 1)) (Py.range 0 num_dice) in
  match each (S (length ranges)) [] ranges with
  | None => OutOfFuel
  | Some (items, _, _) => Ok (mk sides num_dice 0 (mkcycle items 0))
  end.

(** [roll(self)] *)
Definition roll : M t Z :=
  fun self =>
    let self1 := mk (sides self) (num_dice self) (num_rolls self + 1) (rolls self) in
    match next (rolls self1) with
    | Ok (r, it) => Ok (r, mk (sides self1) (num_dice self1) (num_rolls self1) it)
    | Raise e => Raise e
    | OutOfFuel => OutOfFuel
    end.

(** The die as seen through the [DieBase] interface. *)
Definition as_die (self : t) : DieBase.t t := DieBase.mk (sides self) roll.

End DiePerfect.

(** ** class Die *)

Module Die.

(** The state of the [random] module: the unbounded supply of raw
    numbers the generator will hand out. *)
Definition rng : Type := nat -> Z.

(** [random.randint(a, b)]: some [N] with [a <= N <= b], chosen by the
    generator; an empty range raises [ValueError]. *)
Definition randint (a b : Z) : M rng Z :=
  fun g =>
    if b <? a then Raise ValueError
    else Ok (a + g O mod (b - a + 1), fun n => g (S n)).

(** [roll(self)] *)
Definition roll (sides : Z) : M rng Z := randint 1 sides.

Definition as_die (sides : Z) : DieBase.t rng := DieBase.mk sides (roll sides).

End Die.

(** ** class DieDivider *)

Module DieDivider.

Record t : Type := mk { sides : Z }.

(** [__init__(self, sides, source)] *)
Definition init (sides : Z) {St : Type} (source : DieBase.t St) : res t :=
  match Py.mod_ (DieBase.sides source) sides with
  | Ok m =>
      if negb (m =? 0) then
        Raise (Exception ("Cannot divide a die from " ++ Py.str (DieBase.sides source)
                          ++ " sides, to " ++ Py.str sides ++ " sides.")%string)
      else Ok (mk sides)
  | Raise e => Raise e
  | OutOfFuel => OutOfFuel
  end.

(** [roll(self)] *)
Definition roll (self : t) {St : Type} (source : DieBase.t St) : M St Z :=
  divisor <- lift (Py.floordiv (DieBase.sides source) (sides self)) ;;
  r <- DieBase.roll source ;;
  x <- lift (Py.truediv r divisor) ;;
  ret (Py.ceil x).

Definition as_die (self : t) {St : Type} (source : DieBase.t St) : DieBase.t St :=
  DieBase.mk (sides self) (roll self source).

End DieDivider.

(** The search for the number of dice shared, verbatim, by
    [DiePower.__init__] and [DieCombo.__init__]:
    [while True: if pow(source.sides, num_dice) >= sides: break; num_dice += 1] *)
Fixpoint num_dice_loop (fuel : nat) (sides source_sides num_dice : Z) : res Z :=
  match fuel with
  | O => OutOfFuel
  | S fuel' =>
      if sides <=? source_sides ^ num_dice then Ok num_dice
      else num_dice_loop fuel' sides source_sides (num_dice + 1)
  end.

(** ** class DiePower *)

Module DiePower.

Record t : Type := mk { sides : Z; num_dice : Z }.

(** [__init__(self, sides, source)] *)
Definition init (fuel : nat) (sides : Z) {St : Type} (source : DieBase.t St) : res t :=
  match num_dice_loop fuel sides (DieBase.sides source) 0 with
  | Ok n => Ok (mk sides n)
  | Raise e => Raise e
  | OutOfFuel => OutOfFuel
  end.

(** The value computed from one batch of draws:
    [sum([pow(source.sides, k) * (v - 1) for (k, v) in enumerate(rolls)]) + 1] *)
Definition value (source_sides : Z) (rolls : list Z) : Z :=
  Py.sum (map (fun kv => source_sides ^ fst kv * (snd kv - 1)) (Py.enumerate rolls)) + 1.

(** [roll(self)] *)
Fixpoint roll (fuel : nat) (self : t) {St : Type} (source : DieBase.t St) : M St Z :=
  match fuel with
  | O => fun _ => OutOfFuel
  | S fuel' =>
      rolls <- DieBase.call source (num_dice self) ;;
      let v := value (DieBase.sides source) rolls in
      if v >? sides self then roll fuel' self source
      else ret v
  end.

Definition as_die (fuel : nat) (self : t) {St : Type} (source : DieBase.t St)
  : DieBase.t St :=
  DieBase.mk (sides self) (roll fuel self source).

End DiePower.

(** ** class DieCombo *)

Module DieCombo.

Record t : Type := mk { sides : Z; num_dice : Z; divider : Z }.

(** [__init__(self, sides, source)] *)
Definition init (fuel : nat) (sides : Z) {St : Type} (source : DieBase.t St) : res t :=
  match num_dice_loop fuel sides (DieBase.sides source) 0 with
  | Ok n =>
      match Py.floordiv (DieBase.sides source ^ n) sides with
      | Ok d => Ok (mk sides n d)
      | Raise e => Raise e
      | OutOfFuel => OutOfFuel
      end
  | Raise e => Raise e
  | OutOfFuel => OutOfFuel
  end.

(** The raw composite of one batch:
    [sum([pow(source.sides, self.num_dice-k-1) * (v - 1) for (k, v) in enumerate(rolls)])] *)
Definition raw (self : t) (source_sides : Z) (rolls : list Z) : Z :=
  Py.sum (map (fun kv => source_sides ^ (num_dice self - fst kv - 1) * (snd kv - 1))
              (Py.enumerate rolls)).

(** [v //= self.divider; v += 1] *)
Definition value (self : t) (source_sides : Z) (rolls : list Z) : res Z :=
  match Py.floordiv (raw self source_sides rolls) (divider self) with
  | Ok q => Ok (q + 1)
  | Raise e => Raise e
  | OutOfFuel => OutOfFuel
  end.

(** [roll(self)] *)
Fixpoint roll (fuel : nat) (self : t) {St : Type} (source : DieBase.t St) : M St Z :=
  match fuel with
  | O => fun _ => OutOfFuel
  | S fuel' =>
      rolls <- DieBase.call source (num_dice self) ;;
      v <- lift (value self (DieBase.sides source) rolls) ;;
      if v >? sides self then roll fuel' self source
      else ret v
  end.

Definition as_die (fuel : nat) (self : t) {St : Type} (source : DieBase.t St)
  : DieBase.t St :=
  DieBase.mk (sides self) (roll fuel self source).

End DieCombo.


(** ** class DieTester *)

Module DieTester.

(** How [__call__] can end: normally, with a [KeyError] for a roll that is
    no key of [self.rolls], or with whatever rolling the die ended in. *)
Inductive outcome (A : Type) : Type :=
| Done (a : A)
| KeyError (key : Z)
| DieRaised (e : exn)
| DieOutOfFuel.

Arguments Done {A} a.
Arguments KeyError {A} key.
Arguments DieRaised {A} e.
Arguments DieOutOfFuel {A}.

(** [self.rolls]: the dict from face to count, in insertion order.
    [self.die] is a reference to the die under test; the methods below
    take that die as an argument. *)
Record t : Type := mk { rolls : list (Z * Z) }.

(** [__init__(self, die)]:
    [self.rolls = {i:0 for i in range(1, self.die.sides+1)}] *)
Definition init {St : Type} (die : DieBase.t St) : t :=
  mk (map (fun i => (i, 0)) (Py.range 1 (DieBase.sides die + 1))).

(** [d[key] += 1] on a dict *)
Fixpoint increment (d : list (Z * Z)) (key : Z) : option (list (Z * Z)) :=
  match d with
  | [] => None
  | (k, v) :: d' =>
      if k =? key then Some ((k, v + 1) :: d')
      else match increment d' key with
           | Some d'' => Some ((k, v) :: d'')
           | None => None
           end
  end.

(** [for roll in rolls: self.rolls[roll] += 1] *)
Fixpoint count_all (d : list (Z * Z)) (rs : list Z) : outcome (list (Z * Z)) :=
  match rs with
  | [] => Done d
  | roll :: rest =>
      match increment d roll with
      | Some d' => count_all d' rest
      | None => KeyError roll
      end
  end.

(** [__call__(self, count)] *)
Definition call (self : t) {St : Type} (die : DieBase.t St) (count : Z) (st : St)
  : outcome (t * St) :=
  match DieBase.call die count st with
  | Ok (rs, st') =>
      match count_all (rolls self) rs with
      | Done d => Done (mk d, st')
      | KeyError key => KeyError key
      | DieRaised e => DieRaised e
      | DieOutOfFuel => DieOutOfFuel
      end
  | Raise e => DieRaised e
  | OutOfFuel => DieOutOfFuel
  end.

(** [num_rolls]: [sum(self.rolls.values())] *)
Definition num_rolls (self : t) : Z := Py.sum (map snd (rolls self)).

(** [sum]: [sum([k * v for k, v in self.rolls.items()])] *)
Definition sum (self : t) : Z :=
  Py.sum (map (fun kv => fst kv * snd kv) (rolls self)).

End DieTester.
(* ================================================================== *)
(** * Part 2: notions used to state the properties *)
(* ================================================================== *)

(** The positional value of a batch of draws in base [b], each draw [d]
    standing for the digit [d - 1]: least-significant digit first ... *)
Fixpoint composite_lsd (b : Z) (draws : list Z) : Z :=
  match draws with
  | [] => 0
  | d :: rest => (d - 1) + b * composite_lsd b rest
  end.

(** ... and most-significant digit first. *)
Fixpoint composite_msd (b : Z) (draws : list Z) : Z :=
  match draws with
  | [] => 0
  | d :: rest => b ^ Z.of_nat (length rest) * (d - 1) + composite_msd b rest
  end.

(** [rejected draw reject j st st']: starting in state [st], [j] batches in
    a row are drawn and every one of them is rejected, leaving the source
    in state [st']. *)
Inductive rejected {St : Type} (draw : M St (list Z)) (reject : list Z -> Prop)
  : nat -> St -> St -> Prop :=
| rejected_O : forall st, rejected draw reject O st st
| rejected_S : forall j st batch st1 st2,
    draw st = Ok (batch, st1) ->
    reject batch ->
    rejected draw reject j st1 st2 ->
    rejected draw reject (S j) st st2.

(** Cartesian product of a list of ranges, in lexicographic order. *)
Fixpoint product (ranges : list (list Z)) : list (list Z) :=
  match ranges with
  | [] => [[]]
  | range :: rest => flat_map (fun i => map (cons i) (product rest)) range
  end.

(** The sample space of one attempt: every batch of [n] draws from a die
    with [b] sides, that is [{1..b}^n]. *)
Definition batches (b : Z) (n : nat) : list (list Z) :=
  product (repeat (Py.range 1 (b + 1)) n).

(** The batches on which [DiePower.roll] loops again ... *)
Definition power_rejected (self : DiePower.t) (source_sides : Z) : list (list Z) :=
  filter (fun rolls => DiePower.value source_sides rolls >? DiePower.sides self)
         (batches source_sides (Z.to_nat (DiePower.num_dice self))).

(** ... and those on which [DieCombo.roll] does. *)
Definition combo_rejected (self : DieCombo.t) (source_sides : Z) : list (list Z) :=
  filter (fun rolls =>
            match DieCombo.value self source_sides rolls with
            | Ok v => v >? DieCombo.sides self
            | _ => false
            end)
         (batches source_sides (Z.to_nat (DieCombo.num_dice self))).

(** Expected number of source draws per accepted roll when each of the
    [total] batches is equally likely and [total - rejected] of them are
    accepted: [num_dice] draws per attempt, [total / (total - rejected)]
    attempts on average. *)
Definition expected_draws (num_dice total rejected : Z) : Q :=
  Qmake (num_dice * total) (Z.to_pos (total - rejected)).

(** Ceiling of the exact quotient, on integers. *)
Definition ceil_div (a b : Z) : Z := - ((- a) / b).


(** The loop shared by [DiePower.roll] and [DieCombo.roll]: draw a batch,
    compute its value, start over when the value exceeds [sides]. *)
Fixpoint rejection_loop {St : Type} (draw : M St (list Z)) (val : list Z -> res Z)
         (sides : Z) (fuel : nat) : M St Z :=
  match fuel with
  | O => fun _ => OutOfFuel
  | S fuel' =>
      rolls <- draw ;;
      v <- lift (val rolls) ;;
      if v >? sides then rejection_loop draw val sides fuel'
      else ret v
  end.

(** The enumeration die [DiePerfect(sides=6, num_dice=2)] after [k] rolls
    (for [k] below the length 72 of its cycle). *)
Definition enum_2d6 (k : Z) : DiePerfect.t :=
  DiePerfect.mk 6 2 k (DiePerfect.mkcycle (concat (batches 6 2)) (Z.to_nat k)).

(** A generator for [Die] that hands out 0, 7, 4, 4, 4, ... *)
Definition sample_rng : Die.rng :=
  fun n => match n with O => 0 | 1%nat => 7 | _ => 4 end.

(** Reading the two side counts back from the message of the error that
    [DieDivider.__init__] raises. *)
Fixpoint drop_prefix (p s : string) : option string :=
  match p with
  | EmptyString => Some s
  | String c p' =>
      match s with
      | String c' s' => if Ascii.eqb c c' then drop_prefix p' s' else None
      | EmptyString => None
      end
  end.

Fixpoint until_space (s : string) : string * string :=
  match s with
  | EmptyString => (EmptyString, EmptyString)
  | String c s' =>
      if Ascii.eqb c " "%char then (EmptyString, s)
      else let (word, rest) := until_space s' in (String c word, rest)
  end.

Fixpoint spaceless (s : string) : bool :=
  match s with
  | EmptyString => true
  | String c s' => negb (Ascii.eqb c " "%char) && spaceless s'
  end.

Definition int_of_str (s : string) : option Z :=
  option_map Z.of_int (NilZero.int_of_string s).

Definition offending_sides (msg : string) : option (Z * Z) :=
  match drop_prefix "Cannot divide a die from "%string msg with
  | None => None
  | Some s1 =>
      let (n1, s2) := until_space s1 in
      match drop_prefix " sides, to "%string s2 with
      | None => None
      | Some s3 =>
          let (n2, _) := until_space s3 in
          match int_of_str n1, int_of_str n2 with
          | Some a, Some b => Some (a, b)
          | _, _ => None
          end
      end
  end.

(** A generator for [Die] that always hands out [2 ^ 53]. *)
Definition stuck_rng : Die.rng := fun _ => 2 ^ 53.

(** ** The repository's test drivers

    [DieTester] tallies how often each face was rolled; the tests roll a
    die built over a [DiePerfect] source a given number of times and then
    look at the tally and at
    [die.source.num_rolls // die.source.num_dice]. *)
Definition tally (sides : Z) (rolls : list Z) : list Z :=
  map (fun face => Z.of_nat (count_occ Z.eq_dec rolls face)) (Py.range 1 (sides + 1)).

Definition go {T : Type} (init : DieBase.t DiePerfect.t -> res T)
           (as_die : T -> DieBase.t DiePerfect.t -> DieBase.t DiePerfect.t)
           (count sides source_sides source_dice : Z) : res (Z * list Z) :=
  match DiePerfect.init source_sides source_dice with
  | Ok source =>
      match init (DiePerfect.as_die source) with
      | Ok die =>
          match DieBase.call (as_die die (DiePerfect.as_die source)) count source with
          | Ok (rolls, source') =>
              Ok (DiePerfect.num_rolls source' / DiePerfect.num_dice source',
                  tally sides rolls)
          | Raise e => Raise e
          | OutOfFuel => OutOfFuel
          end
      | Raise e => Raise e
      | OutOfFuel => OutOfFuel
      end
  | Raise e => Raise e
  | OutOfFuel => OutOfFuel
  end.

Definition go_divider (count sides source_sides : Z) : res (Z * list Z) :=
  go (DieDivider.init sides) (fun die => DieDivider.as_die die) count sides source_sides 1.

Definition go_power (count sides source_sides source_dice : Z) : res (Z * list Z) :=
  go (DiePower.init 64 sides) (fun die => DiePower.as_die 64 die) count sides source_sides source_dice.

Definition go_combo (count sides source_sides source_dice : Z) : res (Z * list Z) :=
  go (DieCombo.init 64 sides) (fun die => DieCombo.as_die 64 die) count sides source_sides source_dice.

(** The enumeration die [DiePerfect(sides, num_dice = n)] standing at the
    start of the tuple number [j] of its cycle, with [r] rolls counted. *)
Definition enum_at (sides : Z) (n : nat) (r : Z) (j : nat) : DiePerfect.t :=
  DiePerfect.mk sides (Z.of_nat n) r
    (DiePerfect.mkcycle (concat (batches sides n)) (j * n)).

(* ================================================================== *)
(** * Part 3: proofs *)
(* ================================================================== *)

(** ** The state-and-exception monad *)

Lemma bind_Ok {St A B : Type} (m : M St A) (k : A -> M St B) st b st2 :
  bind m k st = Ok (b, st2) <->
  exists a st1, m st = Ok (a, st1) /\ k a st1 = Ok (b, st2).
Proof.
  unfold bind. split.
  - destruct (m st) as [[a st1]| |]; try discriminate. eauto.
  - intros (a & st1 & -> & H). exact H.
Qed.

Lemma lift_Ok {St A : Type} (r : res A) (st : St) a st' :
  lift r st = Ok (a, st') <-> r = Ok a /\ st' = st.
Proof.
  unfold lift. destruct r; split; intros H;
    try discriminate; try (destruct H; discriminate).
  - inversion H; subst. auto.
  - destruct H as [H ->]. inversion H. reflexivity.
Qed.

Lemma rolls_length {St : Type} (roll : M St Z) n st l st' :
  DieBase.rolls roll n st = Ok (l, st') -> length l = n.
Proof.
  revert st l st'. induction n as [|n IH]; intros st l st' H; simpl in H.
  - inversion H. reflexivity.
  - apply bind_Ok in H. destruct H as (r & st1 & _ & H).
    apply bind_Ok in H. destruct H as (rs & st2 & Hrs & H).
    inversion H; subst. simpl. f_equal. eauto.
Qed.

Lemma call_length {St : Type} (source : DieBase.t St) count st l st' :
  DieBase.call source count st = Ok (l, st') -> length l = Z.to_nat count.
Proof. apply rolls_length. Qed.

(** ** The search for [num_dice] *)

Lemma num_dice_loop_sound fuel sides b k n :
  num_dice_loop fuel sides b k = Ok n ->
  k <= n /\ sides <= b ^ n /\ forall i, k <= i < n -> b ^ i < sides.
Proof.
  revert k. induction fuel as [|fuel IH]; intros k H; simpl in H; [discriminate|].
  destruct (sides <=? b ^ k) eqn:E.
  - inversion H; subst. apply Z.leb_le in E. repeat split; try lia.
  - apply Z.leb_gt in E. apply IH in H. destruct H as (H1 & H2 & H3).
    repeat split; try lia. intros i Hi.
    destruct (Z.eq_dec i k) as [->|]; [exact E | apply H3; lia].
Qed.

Lemma num_dice_loop_never_raises fuel sides b k e :
  num_dice_loop fuel sides b k <> Raise e.
Proof.
  revert k. induction fuel as [|fuel IH]; intros k; simpl; [discriminate|].
  destruct (sides <=? b ^ k); [discriminate | apply IH].
Qed.

Lemma num_dice_loop_complete fuel sides b k n :
  k <= n -> sides <= b ^ n -> (forall i, k <= i < n -> b ^ i < sides) ->
  (Z.to_nat (n - k) < fuel)%nat ->
  num_dice_loop fuel sides b k = Ok n.
Proof.
  revert k. induction fuel as [|fuel IH]; intros k Hk Hn Hmin Hfuel; [lia|].
  simpl. destruct (sides <=? b ^ k) eqn:E.
  - apply Z.leb_le in E. destruct (Z.eq_dec k n) as [->|Hne]; [reflexivity|].
    specialize (Hmin k). lia.
  - apply Z.leb_gt in E. destruct (Z.eq_dec k n) as [->|Hne]; [lia|].
    apply IH; try lia. intros i Hi. apply Hmin. lia.
Qed.

Lemma num_dice_loop_stops fuel sides b k bound :
  k <= bound -> sides <= b ^ bound -> (Z.to_nat (bound - k) < fuel)%nat ->
  exists n, num_dice_loop fuel sides b k = Ok n.
Proof.
  revert k. induction fuel as [|fuel IH]; intros k Hk Hb Hfuel; [lia|].
  simpl. destruct (sides <=? b ^ k) eqn:E; [eauto|].
  apply Z.leb_gt in E. destruct (Z.eq_dec k bound) as [->|Hne]; [lia|].
  apply IH; lia.
Qed.

(** With a source of at least two sides the search always ends: some
    power of [b] reaches [sides]. *)
Lemma num_dice_exists sides b :
  2 <= b ->
  exists n, 0 <= n /\ sides <= b ^ n /\ (forall i, 0 <= i < n -> b ^ i < sides) /\
            forall fuel, (Z.to_nat n < fuel)%nat ->
                         num_dice_loop fuel sides b 0 = Ok n.
Proof.
  intros Hb.
  assert (Hbound : sides <= b ^ Z.max 0 sides).
  { pose proof (Z.pow_gt_lin_r b (Z.max 0 sides)). lia. }
  destruct (num_dice_loop_stops (S (Z.to_nat (Z.max 0 sides))) sides b 0 (Z.max 0 sides))
    as [n Hn]; try lia.
  pose proof (num_dice_loop_sound _ _ _ _ _ Hn) as (H0 & H1 & H2).
  exists n. repeat split; try assumption.
  intros fuel Hfuel. apply num_dice_loop_complete; try assumption.
  replace (n - 0) with n by lia. exact Hfuel.
Qed.

(** With a source of one, zero or minus one side no power ever reaches a
    target of two or more sides: the search runs for ever. *)
Lemma num_dice_loop_diverges fuel sides b k :
  2 <= sides -> -1 <= b <= 1 ->
  num_dice_loop fuel sides b k = OutOfFuel.
Proof.
  intros Hs Hb. revert k. induction fuel as [|fuel IH]; intros k; [reflexivity|].
  simpl. destruct (sides <=? b ^ k) eqn:E; [|apply IH].
  apply Z.leb_le in E. exfalso.
  assert (Hpow : Z.abs (b ^ k) <= 1).
  { rewrite Z.abs_pow. destruct (Z.eq_dec (Z.abs b) 1) as [->|Hne].
    - destruct (Z.le_gt_cases 0 k).
      + rewrite Z.pow_1_l by assumption. lia.
      + rewrite Z.pow_neg_r by lia. lia.
    - assert (Z.abs b = 0) as -> by lia.
      destruct (Z.eq_dec k 0) as [->|]; [simpl; lia|].
      destruct (Z.le_gt_cases 0 k).
      + rewrite Z.pow_0_l by lia. lia.
      + rewrite Z.pow_neg_r by lia. lia. }
  lia.
Qed.

(** ** Construction of [DiePower] and [DieCombo] *)

Lemma DiePower_init_Ok fuel sides {St : Type} (source : DieBase.t St) p :
  DiePower.init fuel sides source = Ok p <->
  exists n, num_dice_loop fuel sides (DieBase.sides source) 0 = Ok n /\
            p = DiePower.mk sides n.
Proof.
  unfold DiePower.init.
  destruct (num_dice_loop fuel sides (DieBase.sides source) 0) as [n| |]; split;
    intros H; try discriminate; try (destruct H as (? & ? & _); discriminate).
  - inversion H. eauto.
  - destruct H as (n' & Hn & ->). inversion Hn. reflexivity.
Qed.

Lemma DieCombo_init_Ok fuel sides {St : Type} (source : DieBase.t St) c :
  DieCombo.init fuel sides source = Ok c <->
  exists n, num_dice_loop fuel sides (DieBase.sides source) 0 = Ok n /\
            sides <> 0 /\
            c = DieCombo.mk sides n (DieBase.sides source ^ n / sides).
Proof.
  unfold DieCombo.init, Py.floordiv.
  destruct (num_dice_loop fuel sides (DieBase.sides source) 0) as [n| |]; split;
    intros H; try discriminate; try (destruct H as (? & ? & _); discriminate).
  - destruct (Z.eqb_spec sides 0); [discriminate|]. inversion H. eauto.
  - destruct H as (n' & Hn & Hs & ->). inversion Hn; subst.
    destruct (Z.eqb_spec sides 0); [contradiction | reflexivity].
Qed.

(** The divider of a constructed [DieCombo] is never zero, and it is
    positive as soon as the target has a positive number of sides. *)
Lemma DieCombo_divider fuel sides {St : Type} (source : DieBase.t St) c :
  DieCombo.init fuel sides source = Ok c ->
  0 <= DieCombo.num_dice c /\
  DieCombo.sides c = sides /\
  DieCombo.divider c = DieBase.sides source ^ DieCombo.num_dice c / sides /\
  (0 < sides -> 1 <= DieCombo.divider c) /\
  (sides < 0 -> DieCombo.num_dice c = 0 /\ DieCombo.divider c = -1).
Proof.
  intros H. apply DieCombo_init_Ok in H. destruct H as (n & Hn & Hs & ->). simpl.
  apply num_dice_loop_sound in Hn. destruct Hn as (H0 & Hle & Hmin).
  repeat split; try lia.
  - intros Hpos. apply Z.div_le_lower_bound; lia.
  - destruct (Z.eq_dec n 0) as [->|Hne]; [reflexivity|].
    specialize (Hmin 0). simpl in Hmin. lia.
  - destruct (Z.eq_dec n 0) as [->|Hne].
    + simpl. symmetry. apply Z.div_unique with (r := 1 + sides); lia.
    + specialize (Hmin 0). simpl in Hmin. lia.
Qed.

(** C6: with a source of at least two sides, [DiePower] and [DieCombo]
    compute as [num_dice] the smallest non-negative [n] with
    [source.sides ^ n >= sides] (for every amount of fuel that lets the
    search finish, and there is such an amount); [DieCombo] adds
    [divider = source.sides ^ num_dice // sides].  For [sides = 16] and
    [source.sides = 6] this gives [num_dice = 2] and [divider = 2]. *)
Theorem num_dice_least_power (sides : Z) {St : Type} (source : DieBase.t St) :
  2 <= DieBase.sides source ->
  exists n,
    (0 <= n /\ sides <= DieBase.sides source ^ n /\
     forall i, 0 <= i < n -> DieBase.sides source ^ i < sides) /\
    (forall fuel, (Z.to_nat n < fuel)%nat ->
       DiePower.init fuel sides source = Ok (DiePower.mk sides n) /\
       (sides <> 0 ->
        DieCombo.init fuel sides source =
        Ok (DieCombo.mk sides n (DieBase.sides source ^ n / sides)))) /\
    (forall fuel p, DiePower.init fuel sides source = Ok p ->
       DiePower.num_dice p = n) /\
    (forall fuel c, DieCombo.init fuel sides source = Ok c ->
       DieCombo.num_dice c = n /\
       DieCombo.divider c = DieBase.sides source ^ n / sides) /\
    (sides = 16 -> DieBase.sides source = 6 ->
       n = 2 /\ DieBase.sides source ^ n / sides = 2).
Proof.
  intros Hb. destruct (num_dice_exists sides _ Hb) as (n & H0 & Hle & Hmin & Hrun).
  assert (Huniq : forall fuel m,
             num_dice_loop fuel sides (DieBase.sides source) 0 = Ok m -> m = n).
  { intros fuel m Hm. apply num_dice_loop_sound in Hm. destruct Hm as (Hm0 & Hmle & Hmmin).
    destruct (Z.lt_trichotomy m n) as [Hlt|[Heq|Hgt]]; [|exact Heq|].
    - specialize (Hmin m). lia.
    - specialize (Hmmin n). lia. }
  exists n. split; [auto|]. split; [|split; [|split]].
  - intros fuel Hfuel. split.
    + apply DiePower_init_Ok. eauto.
    + intros Hs. apply DieCombo_init_Ok. eauto.
  - intros fuel p Hp. apply DiePower_init_Ok in Hp. destruct Hp as (m & Hm & ->).
    simpl. eauto.
  - intros fuel c Hc. apply DieCombo_init_Ok in Hc. destruct Hc as (m & Hm & _ & ->).
    simpl. apply Huniq in Hm. subst m. auto.
  - intros -> Hsix. rewrite Hsix in *.
    assert (n = 2) as ->; [|split; reflexivity].
    destruct (Z.lt_trichotomy n 2) as [Hlt|[Heq|Hgt]]; [|exact Heq|].
    + assert (n = 0 \/ n = 1) as [-> | ->] by lia; simpl in Hle; lia.
    + specialize (Hmin 2). simpl in Hmin. lia.
Qed.

(** The claim at the spec's example: a target of 16 sides over a
    six-sided source. *)
Lemma num_dice_least_power_witness :
  DiePower.init 3 16 (Die.as_die 6) = Ok (DiePower.mk 16 2) /\
  DieCombo.init 3 16 (Die.as_die 6) = Ok (DieCombo.mk 16 2 2).
Proof.
  destruct (num_dice_least_power 16 (Die.as_die 6)) as (n & _ & Hrun & _ & _ & Hex).
  - simpl. lia.
  - destruct (Hex eq_refl eq_refl) as [-> Hdiv].
    destruct (Hrun 3%nat) as [Hp Hc]; [simpl; lia|].
    split; [exact Hp|]. rewrite Hc by discriminate. reflexivity.
Defined.

(** C10: a target of one side.  Construction finds [num_dice = 0] at the
    first test of the loop; every roll returns 1 in its first iteration
    and leaves the source exactly as it was, whatever the source is: its
    [roll] is never called. *)
Theorem single_side_needs_no_draw {St : Type} (source : DieBase.t St)
        (fuel : nat) (st : St) :
  DiePower.init (S fuel) 1 source = Ok (DiePower.mk 1 0) /\
  DieCombo.init (S fuel) 1 source = Ok (DieCombo.mk 1 0 1) /\
  DieBase.call source 0 st = Ok ([], st) /\
  DiePower.roll (S fuel) (DiePower.mk 1 0) source st = Ok (1, st) /\
  DieCombo.roll (S fuel) (DieCombo.mk 1 0 1) source st = Ok (1, st).
Proof.
  repeat split.
Qed.

(** ** Batches and their values *)

Lemma fold_left_add_shift (l : list Z) (a : Z) :
  fold_left Z.add l a = a + fold_left Z.add l 0.
Proof.
  revert a. induction l as [|x l IH]; intros a; simpl; [lia|].
  rewrite (IH (a + x)), (IH x). lia.
Qed.

Lemma sum_cons (x : Z) (l : list Z) : Py.sum (x :: l) = x + Py.sum l.
Proof. unfold Py.sum. simpl. apply fold_left_add_shift. Qed.

Lemma lsd_sum_from (b : Z) (l : list Z) (i : nat) :
  Py.sum (map (fun kv => b ^ fst kv * (snd kv - 1))
              (combine (map Z.of_nat (seq i (length l))) l))
  = b ^ Z.of_nat i * composite_lsd b l.
Proof.
  revert i. induction l as [|d l IH]; intros i; simpl.
  - unfold Py.sum. simpl. lia.
  - rewrite sum_cons, IH. simpl fst; simpl snd.
    rewrite Nat2Z.inj_succ, Z.pow_succ_r by lia. ring.
Qed.

(** [DiePower.value] is one more than the least-significant-first
    composite of the batch. *)
Lemma DiePower_value_composite (b : Z) (rolls : list Z) :
  DiePower.value b rolls = 1 + composite_lsd b rolls.
Proof.
  unfold DiePower.value, Py.enumerate. rewrite lsd_sum_from.
  change (Z.of_nat 0) with 0. rewrite Z.pow_0_r. lia.
Qed.

Lemma msd_sum_from (b n : Z) (l : list Z) (i : nat) :
  n = Z.of_nat i + Z.of_nat (length l) ->
  Py.sum (map (fun kv => b ^ (n - fst kv - 1) * (snd kv - 1))
              (combine (map Z.of_nat (seq i (length l))) l))
  = composite_msd b l.
Proof.
  revert i. induction l as [|d l IH]; intros i Hn; simpl.
  - reflexivity.
  - rewrite sum_cons, IH by (simpl length in Hn; lia). simpl fst; simpl snd.
    simpl length in Hn. replace (n - Z.of_nat i - 1) with (Z.of_nat (length l)) by lia.
    reflexivity.
Qed.

(** On a batch of exactly [num_dice] draws [DieCombo.raw] is the
    most-significant-first composite. *)
Lemma DieCombo_raw_composite (self : DieCombo.t) (b : Z) (rolls : list Z) :
  Z.of_nat (length rolls) = DieCombo.num_dice self ->
  DieCombo.raw self b rolls = composite_msd b rolls.
Proof.
  intros H. unfold DieCombo.raw, Py.enumerate. apply msd_sum_from. simpl. lia.
Qed.

Lemma DieCombo_value_composite (self : DieCombo.t) (b : Z) (rolls : list Z) :
  Z.of_nat (length rolls) = DieCombo.num_dice self ->
  DieCombo.divider self <> 0 ->
  DieCombo.value self b rolls = Ok (composite_msd b rolls / DieCombo.divider self + 1).
Proof.
  intros Hlen Hd. unfold DieCombo.value, Py.floordiv.
  rewrite DieCombo_raw_composite by assumption.
  destruct (Z.eqb_spec (DieCombo.divider self) 0); [contradiction | reflexivity].
Qed.

Lemma composite_lsd_nonneg (b : Z) (l : list Z) :
  Forall (fun d => 1 <= d <= b) l -> 0 <= composite_lsd b l.
Proof.
  induction 1 as [|d l Hd _ IH]; simpl; [lia|]. nia.
Qed.

Lemma composite_msd_nonneg (b : Z) (l : list Z) :
  Forall (fun d => 1 <= d <= b) l -> 0 <= composite_msd b l.
Proof.
  induction 1 as [|d l Hd _ IH]; simpl; [lia|].
  assert (0 <= b ^ Z.of_nat (length l)) by (apply Z.pow_nonneg; lia). nia.
Qed.

(** ** The rejection loop *)

Lemma rejected_impl {St : Type} (draw : M St (list Z)) (P Q : list Z -> Prop) j st st' :
  (forall s batch s1, draw s = Ok (batch, s1) -> P batch -> Q batch) ->
  rejected draw P j st st' -> rejected draw Q j st st'.
Proof.
  intros HPQ. induction 1 as [|j st batch st1 st2 Hd HP _ IH].
  - constructor.
  - econstructor; eauto.
Qed.

Lemma rejection_loop_Ok {St : Type} (draw : M St (list Z)) (val : list Z -> res Z)
      (sides : Z) (fuel : nat) (st st' : St) (v : Z) :
  rejection_loop draw val sides fuel st = Ok (v, st') <->
  exists j stj batch,
    (j < fuel)%nat /\
    rejected draw (fun rolls => exists w, val rolls = Ok w /\ w > sides) j st stj /\
    draw stj = Ok (batch, st') /\ val batch = Ok v /\ v <= sides.
Proof.
  split.
  - revert st. induction fuel as [|fuel IH]; intros st H; simpl in H; [discriminate|].
    apply bind_Ok in H. destruct H as (rolls & st1 & Hdraw & H).
    apply bind_Ok in H. destruct H as (w & st1' & Hval & H).
    apply lift_Ok in Hval. destruct Hval as [Hval ->].
    destruct (Z.gtb_spec w sides) as [Hgt|Hle].
    + apply IH in H. destruct H as (j & stj & batch & Hj & Hrej & Hd & Hv & Hle).
      exists (S j), stj, batch. repeat split; try assumption; try lia.
      econstructor; eauto. exists w. split; [assumption | lia].
    + inversion H; subst. exists O, st, rolls.
      repeat split; try assumption; try lia. constructor.
  - intros (j & stj & batch & Hj & Hrej & Hd & Hv & Hle).
    revert fuel Hj. induction Hrej as [st|j st b st1 st2 Hb (w & Hw & Hgt) _ IH];
      intros fuel Hj; (destruct fuel as [|fuel]; [lia|]); simpl; unfold bind, lift.
    + rewrite Hd, Hv. destruct (Z.gtb_spec v sides); [lia | reflexivity].
    + rewrite Hb, Hw. destruct (Z.gtb_spec w sides); [|lia].
      apply IH; try assumption. lia.
Qed.

Lemma DiePower_roll_loop (fuel : nat) (self : DiePower.t) {St : Type}
      (source : DieBase.t St) (st : St) :
  DiePower.roll fuel self source st =
  rejection_loop (DieBase.call source (DiePower.num_dice self))
                 (fun rolls => Ok (DiePower.value (DieBase.sides source) rolls))
                 (DiePower.sides self) fuel st.
Proof.
  revert st. induction fuel as [|fuel IH]; intros st; simpl; [reflexivity|].
  unfold bind. destruct (DieBase.call source (DiePower.num_dice self) st) as [[rolls st1]| |];
    try reflexivity.
  simpl. destruct (_ >? _); [apply IH | reflexivity].
Qed.

Lemma DieCombo_roll_loop (fuel : nat) (self : DieCombo.t) {St : Type}
      (source : DieBase.t St) (st : St) :
  DieCombo.roll fuel self source st =
  rejection_loop (DieBase.call source (DieCombo.num_dice self))
                 (DieCombo.value self (DieBase.sides source))
                 (DieCombo.sides self) fuel st.
Proof.
  revert st. induction fuel as [|fuel IH]; intros st; simpl; [reflexivity|].
  unfold bind. destruct (DieBase.call source (DieCombo.num_dice self) st) as [[rolls st1]| |];
    try reflexivity.
  destruct (lift _ st1) as [[v st2]| |]; try reflexivity.
  destruct (_ >? _); [apply IH | reflexivity].
Qed.

(** C1: [DiePower.roll] returns [v] and leaves the source in state [st']
    exactly when, for some [j], the first [j] batches of [num_dice] draws
    are all rejected (their composite [1 + sum of source.sides^k * (d_k - 1)],
    least-significant digit first, exceeds [sides]), the next batch has a
    composite of at most [sides], [v] is that composite and [st'] the
    state after that batch; any fuel above [j] is enough. *)
Theorem DiePower_roll_first_accepted (self : DiePower.t) {St : Type}
        (source : DieBase.t St) (fuel : nat) (st st' : St) (v : Z) :
  DiePower.roll fuel self source st = Ok (v, st') <->
  exists j stj batch,
    (j < fuel)%nat /\
    rejected (DieBase.call source (DiePower.num_dice self))
             (fun rolls => 1 + composite_lsd (DieBase.sides source) rolls
                           > DiePower.sides self) j st stj /\
    DieBase.call source (DiePower.num_dice self) stj = Ok (batch, st') /\
    length batch = Z.to_nat (DiePower.num_dice self) /\
    v = 1 + composite_lsd (DieBase.sides source) batch /\
    v <= DiePower.sides self.
Proof.
  rewrite DiePower_roll_loop, rejection_loop_Ok. split.
  - intros (j & stj & batch & Hj & Hrej & Hd & Hv & Hle).
    exists j, stj, batch. repeat split; try assumption.
    + revert Hrej. apply rejected_impl. intros s b s1 _ (w & Hw & Hgt).
      inversion Hw; subst. rewrite <- DiePower_value_composite. exact Hgt.
    + eapply call_length; eauto.
    + inversion Hv. apply DiePower_value_composite.
  - intros (j & stj & batch & Hj & Hrej & Hd & Hlen & Hv & Hle).
    exists j, stj, batch. repeat split; try assumption.
    + revert Hrej. apply rejected_impl. intros s b s1 _ Hgt.
      exists (DiePower.value (DieBase.sides source) b). split; [reflexivity|].
      rewrite DiePower_value_composite. exact Hgt.
    + rewrite DiePower_value_composite, Hv. reflexivity.
Qed.

(** The fourth roll of a 16-sided [DiePower] over the enumeration of two
    six-sided dice: the batches (1,4), (1,5) and (1,6) have composites 19,
    25 and 31 and are rejected, the batch (2,1) gives 2. *)
Lemma DiePower_roll_first_accepted_witness :
  DiePerfect.init 6 2 = Ok (enum_2d6 0) /\
  DieBase.call (DiePerfect.as_die (enum_2d6 0)) 6 (enum_2d6 0)
    = Ok ([1; 1; 1; 2; 1; 3], enum_2d6 6) /\
  DiePower.roll 4 (DiePower.mk 16 2) (DiePerfect.as_die (enum_2d6 0)) (enum_2d6 6)
    = Ok (2, enum_2d6 14).
Proof.
  split; [reflexivity|]. split; [reflexivity|].
  apply (proj2 (DiePower_roll_first_accepted (DiePower.mk 16 2)
                  (DiePerfect.as_die (enum_2d6 0)) 4 (enum_2d6 6) (enum_2d6 14) 2)).
  exists 3%nat, (enum_2d6 12), [2; 1].
  split; [lia|]. split.
  - apply rejected_S with (batch := [1; 4]) (st1 := enum_2d6 8);
      [reflexivity | simpl; lia |].
    apply rejected_S with (batch := [1; 5]) (st1 := enum_2d6 10);
      [reflexivity | simpl; lia |].
    apply rejected_S with (batch := [1; 6]) (st1 := enum_2d6 12);
      [reflexivity | simpl; lia |].
    apply rejected_O.
  - split; [reflexivity|]. split; [reflexivity|]. simpl. lia.
Defined.

(** C2: for a constructed [DieCombo], [divider] is
    [source.sides ^ num_dice // sides], and [roll] returns [v] in state
    [st'] exactly when, for some [j], the first [j] batches of [num_dice]
    draws are rejected, the next batch is accepted, [v] is its value and
    [st'] the state after it.  The value of a batch is its
    most-significant-first composite (the i-th draw contributes
    [source.sides ^ (num_dice - 1 - i) * (d_i - 1)]) integer-divided by
    [divider], plus one; a batch is rejected when its value exceeds
    [sides]. *)
Theorem DieCombo_roll_first_accepted (sides : Z) {St : Type} (source : DieBase.t St)
        (fuel0 : nat) (self : DieCombo.t) :
  DieCombo.init fuel0 sides source = Ok self ->
  DieCombo.sides self = sides /\
  DieCombo.divider self = DieBase.sides source ^ DieCombo.num_dice self / sides /\
  forall (fuel : nat) (st st' : St) (v : Z),
    DieCombo.roll fuel self source st = Ok (v, st') <->
    exists j stj batch,
      (j < fuel)%nat /\
      rejected (DieBase.call source (DieCombo.num_dice self))
               (fun rolls => composite_msd (DieBase.sides source) rolls
                             / DieCombo.divider self + 1 > sides) j st stj /\
      DieBase.call source (DieCombo.num_dice self) stj = Ok (batch, st') /\
      length batch = Z.to_nat (DieCombo.num_dice self) /\
      v = composite_msd (DieBase.sides source) batch / DieCombo.divider self + 1 /\
      v <= sides.
Proof.
  intros Hinit.
  destruct (DieCombo_divider _ _ _ _ Hinit) as (Hn & Hsides & Hdiv & Hpos & Hneg).
  assert (Hnz : DieCombo.divider self <> 0).
  { apply DieCombo_init_Ok in Hinit. destruct Hinit as (n & _ & Hs & _).
    destruct (Z.lt_trichotomy sides 0) as [H|[H|H]]; [|contradiction|].
    - destruct (Hneg H) as [_ ->]. discriminate.
    - specialize (Hpos H). lia. }
  assert (Hval : forall s b s1,
             DieBase.call source (DieCombo.num_dice self) s = Ok (b, s1) ->
             DieCombo.value self (DieBase.sides source) b
             = Ok (composite_msd (DieBase.sides source) b / DieCombo.divider self + 1)).
  { intros s b s1 Hb. apply DieCombo_value_composite; [|exact Hnz].
    apply call_length in Hb. lia. }
  split; [exact Hsides|]. split; [exact Hdiv|].
  intros fuel st st' v. rewrite DieCombo_roll_loop, rejection_loop_Ok, Hsides. split.
  - intros (j & stj & batch & Hj & Hrej & Hd & Hv & Hle).
    exists j, stj, batch. repeat split; try assumption.
    + revert Hrej. apply rejected_impl. intros s b s1 Hb (w & Hw & Hgt).
      rewrite (Hval _ _ _ Hb) in Hw. inversion Hw; subst. exact Hgt.
    + eapply call_length; eauto.
    + rewrite (Hval _ _ _ Hd) in Hv. inversion Hv. reflexivity.
  - intros (j & stj & batch & Hj & Hrej & Hd & Hlen & Hv & Hle).
    exists j, stj, batch. repeat split; try assumption.
    + revert Hrej. apply rejected_impl. intros s b s1 Hb Hgt.
      eexists. split; [apply (Hval _ _ _ Hb) | exact Hgt].
    + rewrite (Hval _ _ _ Hd), Hv. reflexivity.
Qed.

(** A 16-sided [DieCombo] over the enumeration of two six-sided dice has
    [divider = 2]; after 32 accepted batches the batches (6,3) and (6,4),
    of raw composites 32 and 33, give 17 and are rejected, and (6,5),
    of raw composite 34, gives 18: rejected too, as is (6,6); the cycle
    restarts and (1,1) gives 1. *)
Lemma DieCombo_roll_first_accepted_witness :
  DieCombo.init 3 16 (DiePerfect.as_die (enum_2d6 0)) = Ok (DieCombo.mk 16 2 2) /\
  DieCombo.roll 5 (DieCombo.mk 16 2 2) (DiePerfect.as_die (enum_2d6 0)) (enum_2d6 64)
    = Ok (1, DiePerfect.mk 6 2 74 (DiePerfect.mkcycle (concat (batches 6 2)) 2)).
Proof.
  split; [reflexivity|].
  destruct (DieCombo_roll_first_accepted 16 (DiePerfect.as_die (enum_2d6 0)) 3
              (DieCombo.mk 16 2 2) eq_refl) as (_ & _ & Hroll).
  apply Hroll.
  exists 4%nat, (DiePerfect.mk 6 2 72 (DiePerfect.mkcycle (concat (batches 6 2)) 0)), [1; 1].
  split; [lia|]. split.
  - apply rejected_S with (batch := [6; 3]) (st1 := enum_2d6 66);
      [reflexivity | vm_compute; reflexivity |].
    apply rejected_S with (batch := [6; 4]) (st1 := enum_2d6 68);
      [reflexivity | vm_compute; reflexivity |].
    apply rejected_S with (batch := [6; 5]) (st1 := enum_2d6 70);
      [reflexivity | vm_compute; reflexivity |].
    apply rejected_S with (batch := [6; 6])
      (st1 := DiePerfect.mk 6 2 72 (DiePerfect.mkcycle (concat (batches 6 2)) 0));
      [reflexivity | vm_compute; reflexivity |].
    apply rejected_O.
  - split; [reflexivity|]. split; [reflexivity|]. split; [reflexivity|]. lia.
Defined.

(** ** Range of the accepted rolls *)

Section SourceContract.

Context {St : Type} (source : DieBase.t St).

(** The contract of the source die: from a state satisfying [good], a
    roll is a number from 1 to [source.sides] and [good] still holds. *)
Variable good : St -> Prop.
Hypothesis roll_in_range : forall st r st',
    good st -> DieBase.roll source st = Ok (r, st') ->
    1 <= r <= DieBase.sides source /\ good st'.

Lemma rolls_in_range n st l st' :
  good st -> DieBase.rolls (DieBase.roll source) n st = Ok (l, st') ->
  Forall (fun d => 1 <= d <= DieBase.sides source) l /\ good st'.
Proof.
  revert st l st'. induction n as [|n IH]; intros st l st' Hg H; simpl in H.
  - inversion H; subst. auto.
  - apply bind_Ok in H. destruct H as (r & st1 & Hr & H).
    apply bind_Ok in H. destruct H as (rs & st2 & Hrs & H).
    inversion H; subst.
    destruct (roll_in_range _ _ _ Hg Hr) as [Hrange Hg1].
    destruct (IH _ _ _ Hg1 Hrs) as [Hall Hg2]. auto.
Qed.

Lemma rejected_good (count : Z) (P : list Z -> Prop) j st st' :
  good st -> rejected (DieBase.call source count) P j st st' -> good st'.
Proof.
  intros Hg Hrej. induction Hrej as [|j st b st1 st2 Hb _ _ IH]; [exact Hg|].
  apply IH. eapply rolls_in_range; eauto.
Qed.

(** C8: whatever [DiePower.roll] or [DieCombo.roll] returns lies between
    1 and [sides] (and the source is left in a good state), for every
    [DiePower] and every constructed [DieCombo] over a source that keeps
    its contract. *)
Theorem accepted_roll_in_range (sides : Z) (fuel0 fuel : nat) (st st' : St) (v : Z) :
  good st ->
  (forall p, DiePower.init fuel0 sides source = Ok p ->
             DiePower.roll fuel p source st = Ok (v, st') ->
             1 <= v <= sides /\ good st') /\
  (forall c, DieCombo.init fuel0 sides source = Ok c ->
             DieCombo.roll fuel c source st = Ok (v, st') ->
             1 <= v <= sides /\ good st').
Proof.
  intros Hg. split.
  - intros p Hp Hroll. apply DiePower_init_Ok in Hp. destruct Hp as (n & _ & ->).
    rewrite DiePower_roll_loop in Hroll. apply rejection_loop_Ok in Hroll.
    destruct Hroll as (j & stj & batch & _ & Hrej & Hd & Hv & Hle). simpl in *.
    pose proof (rejected_good _ _ _ _ _ Hg Hrej) as Hgj.
    destruct (rolls_in_range _ _ _ _ Hgj Hd) as [Hall Hg'].
    inversion Hv as [Hv']. rewrite DiePower_value_composite in *.
    pose proof (composite_lsd_nonneg _ _ Hall). split; [lia | exact Hg'].
  - intros c Hc Hroll.
    destruct (DieCombo_divider _ _ _ _ Hc) as (Hn & Hsides & Hdiv & Hpos & Hneg).
    rewrite DieCombo_roll_loop in Hroll. apply rejection_loop_Ok in Hroll.
    destruct Hroll as (j & stj & batch & _ & Hrej & Hd & Hv & Hle).
    pose proof (rejected_good _ _ _ _ _ Hg Hrej) as Hgj.
    destruct (rolls_in_range _ _ _ _ Hgj Hd) as [Hall Hg'].
    rewrite Hsides in Hle. split; [|exact Hg']. split; [|exact Hle].
    apply call_length in Hd.
    destruct (Z.lt_trichotomy sides 0) as [Hs|[Hs|Hs]].
    + destruct (Hneg Hs) as [Hn0 Hd1]. rewrite Hn0 in Hd.
      destruct batch; [|discriminate].
      unfold DieCombo.value, DieCombo.raw in Hv. rewrite Hd1 in Hv.
      simpl in Hv. inversion Hv. lia.
    + apply DieCombo_init_Ok in Hc. destruct Hc as (? & _ & ? & _). contradiction.
    + specialize (Hpos Hs).
      rewrite DieCombo_value_composite in Hv by lia. inversion Hv.
      pose proof (composite_msd_nonneg _ _ Hall).
      assert (0 <= composite_msd (DieBase.sides source) batch / DieCombo.divider c)
        by (apply Z.div_pos; lia).
      lia.
Qed.

End SourceContract.

(** A uniform [Die] keeps the contract in every state of the generator. *)
Lemma Die_roll_in_range (sides : Z) (g : Die.rng) (r : Z) (g' : Die.rng) :
  Die.roll sides g = Ok (r, g') -> 1 <= r <= sides.
Proof.
  unfold Die.roll, Die.randint. intros H.
  destruct (Z.ltb_spec sides 1); [discriminate|].
  assert (Hr : r = 1 + g O mod (sides - 1 + 1)) by congruence.
  pose proof (Z.mod_pos_bound (g O) (sides - 1 + 1)). lia.
Qed.

(** With a generator that hands out 0, 7, 4, 4, ... the first batch of a
    six-sided [Die] is (1,2), of composite 7 for [DiePower] and of value 1
    for [DieCombo]; with a target of 16 sides both are accepted. *)
Lemma accepted_roll_in_range_witness :
  DiePower.roll 1 (DiePower.mk 16 2) (Die.as_die 6) sample_rng
    = Ok (7, fun n => sample_rng (S (S n))) /\
  DieCombo.roll 1 (DieCombo.mk 16 2 2) (Die.as_die 6) sample_rng
    = Ok (1, fun n => sample_rng (S (S n))) /\
  (1 <= 7 <= 16 /\ True) /\ (1 <= 1 <= 16 /\ True).
Proof.
  assert (Hcontract : forall (st : Die.rng) r st',
             True -> DieBase.roll (Die.as_die 6) st = Ok (r, st') ->
             1 <= r <= DieBase.sides (Die.as_die 6) /\ True).
  { intros st r st' _ H. split; [|exact I]. exact (Die_roll_in_range 6 st r st' H). }
  split; [reflexivity|]. split; [reflexivity|]. split.
  - apply (proj1 (accepted_roll_in_range (Die.as_die 6) (fun _ => True) Hcontract
                    16 3 1 sample_rng (fun n => sample_rng (S (S n))) 7 I)
                 (DiePower.mk 16 2));
      reflexivity.
  - apply (proj2 (accepted_roll_in_range (Die.as_die 6) (fun _ => True) Hcontract
                    16 3 1 sample_rng (fun n => sample_rng (S (S n))) 1 I)
                 (DieCombo.mk 16 2 2));
      reflexivity.
Defined.

(** ** The enumeration die *)

Lemma concat_app_product (current : list Z) (P : list (list Z)) (r : list Z) :
  concat (map (app current) (flat_map (fun i => map (cons i) P) r))
  = concat (map (fun i => concat (map (app (current ++ [i])) P)) r).
Proof.
  induction r as [|i r IH]; simpl; [reflexivity|].
  rewrite map_app, concat_app, IH. f_equal.
  rewrite map_map. f_equal. apply map_ext. intros t.
  rewrite <- app_assoc. reflexivity.
Qed.

(** [__each] returns the tuples of the product, each prefixed by
    [current], one after the other, and restores both [current] and
    [ranges]. *)
Lemma each_product (fuel : nat) (current : list Z) (ranges : list (list Z)) :
  (length ranges < fuel)%nat ->
  DiePerfect.each fuel current ranges
  = Some (concat (map (app current) (product ranges)), current, ranges).
Proof.
  revert current ranges. induction fuel as [|fuel IH]; intros current ranges Hfuel; [lia|].
  destruct ranges as [|range rest]; simpl.
  - rewrite !app_nil_r. reflexivity.
  - simpl in Hfuel. rewrite concat_app_product.
    assert (Hloop : forall r acc,
      fold_left
        (fun acc i =>
           match acc with
           | None => None
           | Some (results, current, ranges) =>
               match DiePerfect.each fuel (current ++ [i]) ranges with
               | None => None
               | Some (r, current', ranges') =>
                   Some (results ++ r, removelast current', ranges')
               end
           end) r (Some (acc, current, rest))
      = Some (acc ++ concat (map (fun i => concat (map (app (current ++ [i])) (product rest))) r),
              current, rest)).
    { induction r as [|i r IHr]; intros acc; simpl.
      - rewrite app_nil_r. reflexivity.
      - rewrite IH by lia. rewrite removelast_last, IHr, <- app_assoc. reflexivity. }
    rewrite Hloop. reflexivity.
Qed.

Lemma range_from_0 (n : Z) (A : Type) (x : A) :
  map (fun _ => x) (Py.range 0 n) = repeat x (Z.to_nat n).
Proof.
  unfold Py.range. rewrite Z.sub_0_r, map_map.
  generalize 0%nat. induction (Z.to_nat n) as [|k IH]; intros s; simpl; [reflexivity|].
  f_equal. apply IH.
Qed.

(** A fresh [DiePerfect] cycles over the flattened product
    [{1..sides}^num_dice], taken in lexicographic order. *)
Lemma DiePerfect_init_batches (sides num_dice : Z) :
  DiePerfect.init sides num_dice
  = Ok (DiePerfect.mk sides num_dice 0
          (DiePerfect.mkcycle (concat (batches sides (Z.to_nat num_dice))) 0)).
Proof.
  unfold DiePerfect.init. rewrite each_product by lia. simpl.
  rewrite map_id, range_from_0. reflexivity.
Qed.

(** [k] rolls of an enumeration die that stands at position [p] of a
    non-empty cycle give the next [k] items, wrapping around. *)
Lemma DiePerfect_rolls (k : nat) (s n r : Z) (items : list Z) (p : nat) :
  items <> [] -> (p < length items)%nat ->
  DieBase.rolls DiePerfect.roll k (DiePerfect.mk s n r (DiePerfect.mkcycle items p))
  = Ok (map (fun i => nth ((p + i) mod length items) items 0) (seq 0 k),
        DiePerfect.mk s n (r + Z.of_nat k)
          (DiePerfect.mkcycle items ((p + k) mod length items))).
Proof.
  intros Hne. revert r p. induction k as [|k IH]; intros r p Hp.
  - simpl. rewrite Nat.add_0_r, Nat.mod_small, Z.add_0_r by assumption. reflexivity.
  - cbn [DieBase.rolls]. unfold bind at 1.
    assert (Hroll : DiePerfect.roll (DiePerfect.mk s n r (DiePerfect.mkcycle items p))
                    = Ok (nth p items 0,
                          DiePerfect.mk s n (r + 1)
                            (DiePerfect.mkcycle items (S p mod length items)))).
    { unfold DiePerfect.roll, DiePerfect.next. simpl.
      destruct items as [|x items']; [contradiction|].
      do 2 f_equal. apply nth_indep. exact Hp. }
    rewrite Hroll. unfold bind.
    assert (Hlen : length items <> 0%nat) by (destruct items; [contradiction | discriminate]).
    rewrite IH by (apply Nat.mod_upper_bound; exact Hlen).
    unfold ret. f_equal. f_equal.
    + cbn [seq map]. f_equal.
      * rewrite Nat.add_0_r, Nat.mod_small by assumption. reflexivity.
      * rewrite <- seq_shift, map_map. apply map_ext. intros i.
        rewrite Nat.Div0.add_mod_idemp_l.
        f_equal. f_equal. lia.
    + f_equal; [lia|]. f_equal.
      rewrite Nat.Div0.add_mod_idemp_l. f_equal. lia.
Qed.

(** ** True division and [math.ceil] *)

Lemma ceil_div_spec (a b : Z) :
  0 < b -> (ceil_div a b - 1) * b < a <= ceil_div a b * b.
Proof.
  intros Hb. unfold ceil_div.
  pose proof (Z.div_mod (- a) b ltac:(lia)).
  pose proof (Z.mod_pos_bound (- a) b Hb). nia.
Qed.

Lemma ceil_div_unique (m t k : Z) :
  0 < t -> (k - 1) * t < m <= k * t -> ceil_div m t = k.
Proof.
  intros Ht Hk. unfold ceil_div.
  assert (H : - k = - m / t).
  { apply Z.div_unique with (r := k * t - m); [left; lia | ring]. }
  lia.
Qed.

Lemma round_half_even_exact (j d : Z) :
  0 < d -> Py.round_half_even (j * d) d = j.
Proof.
  intros Hd. unfold Py.round_half_even.
  rewrite Z.div_mul, Z.mod_mul by lia.
  destruct (Z.ltb_spec (2 * 0) d); [reflexivity | lia].
Qed.

Lemma round_half_even_le (n d j : Z) :
  0 < d -> n <= j * d -> Py.round_half_even n d <= j.
Proof.
  intros Hd Hn. unfold Py.round_half_even.
  pose proof (Z.div_mod n d ltac:(lia)).
  pose proof (Z.mod_pos_bound n d Hd).
  destruct (Z.ltb_spec (2 * (n mod d)) d); [nia|].
  assert (n / d + 1 <= j) by nia.
  destruct (Z.ltb_spec d (2 * (n mod d))); [assumption|].
  destruct (Z.even (n / d)); lia.
Qed.

Lemma round_half_even_gt (n d j c : Z) :
  0 < d -> j * d + c <= n -> d < 2 * c -> j < Py.round_half_even n d.
Proof.
  intros Hd Hn Hc. unfold Py.round_half_even.
  pose proof (Z.div_mod n d ltac:(lia)).
  pose proof (Z.mod_pos_bound n d Hd).
  assert (j <= n / d) by nia.
  destruct (Z.ltb_spec (2 * (n mod d)) d); [nia|].
  destruct (Z.ltb_spec d (2 * (n mod d))); [lia|].
  destruct (Z.even (n / d)); nia.
Qed.

Lemma round_half_even_upper (n d : Z) :
  0 < d -> 0 <= n -> Py.round_half_even n d <= n + 1.
Proof.
  intros Hd Hn. unfold Py.round_half_even.
  assert (n / d <= n) by (apply Z.div_le_upper_bound; nia).
  destruct (_ <? _); [lia|]. destruct (_ <? _); [lia|]. destruct (Z.even _); lia.
Qed.

(** [ilog2_quot a b] never overshoots: [2 ^ e <= a / b]. *)
Lemma ilog2_quot_lower (a b : Z) :
  0 < a -> 0 < b ->
  b * 2 ^ Z.max 0 (Py.ilog2_quot a b) <= a * 2 ^ Z.max 0 (- Py.ilog2_quot a b).
Proof.
  intros Ha Hb. unfold Py.ilog2_quot.
  pose proof (Z.log2_spec a Ha) as [Hla _].
  pose proof (Z.log2_spec b Hb) as [_ Hlb].
  pose proof (Z.log2_nonneg a). pose proof (Z.log2_nonneg b).
  set (la := Z.log2 a) in *. set (lb := Z.log2 b) in *.
  destruct (Z.ltb_spec (a * 2 ^ Z.max 0 (- (la - lb))) (b * 2 ^ Z.max 0 (la - lb)));
    [|assumption].
  unfold Z.succ in Hlb.
  destruct (Z.le_gt_cases 1 (la - lb)) as [Hpos|Hneg].
  - rewrite (Z.max_r 0 (la - lb - 1)), (Z.max_l 0 (- (la - lb - 1))) by lia.
    rewrite Z.pow_0_r, Z.mul_1_r.
    assert (Hsplit : 2 ^ la = 2 ^ (lb + 1) * 2 ^ (la - lb - 1)).
    { rewrite <- Z.pow_add_r by lia. f_equal. lia. }
    assert (0 < 2 ^ (la - lb - 1)) by (apply Z.pow_pos_nonneg; lia).
    nia.
  - rewrite (Z.max_l 0 (la - lb - 1)), (Z.max_r 0 (- (la - lb - 1))) by lia.
    rewrite Z.pow_0_r, Z.mul_1_r.
    assert (Hsplit : 2 ^ (lb + 1) = 2 ^ la * 2 ^ (- (la - lb - 1))).
    { rewrite <- Z.pow_add_r by lia. f_equal. lia. }
    assert (0 < 2 ^ (- (la - lb - 1))) by (apply Z.pow_pos_nonneg; lia).
    nia.
Qed.

Lemma ilog2_quot_range (a b : Z) :
  1 <= a <= 2 ^ 53 -> 1 <= b <= 2 ^ 53 ->
  -54 <= Py.ilog2_quot a b <= 53.
Proof.
  intros Ha Hb. unfold Py.ilog2_quot.
  pose proof (Z.log2_nonneg a). pose proof (Z.log2_nonneg b).
  assert (Z.log2 a <= 53) by (change 53 with (Z.log2 (2 ^ 53)); apply Z.log2_le_mono; lia).
  assert (Z.log2 b <= 53) by (change 53 with (Z.log2 (2 ^ 53)); apply Z.log2_le_mono; lia).
  destruct (_ <? _); lia.
Qed.

(** Below [2 ^ 53] nothing is lost: [math.ceil(a / b)] is the ceiling of
    the exact quotient. *)
Lemma truediv_ceil_exact (a b : Z) :
  1 <= a <= 2 ^ 53 -> 1 <= b <= 2 ^ 53 ->
  exists x, Py.truediv a b = Ok x /\ Py.ceil x = ceil_div a b.
Proof.
  intros Ha Hb. unfold Py.truediv.
  destruct (Z.eqb_spec b 0); [lia|]. destruct (Z.eqb_spec a 0); [lia|].
  rewrite (Z.sgn_pos a), (Z.sgn_pos b), (Z.abs_eq a), (Z.abs_eq b) by lia.
  pose proof (ilog2_quot_range a b Ha Hb) as He.
  pose proof (ilog2_quot_lower a b ltac:(lia) ltac:(lia)) as Hlow.
  set (e := Py.ilog2_quot a b) in *.
  rewrite (Z.max_l (e - 52) (-1074)) by lia.
  pose proof (ceil_div_spec a b ltac:(lia)) as Hk.
  assert (H1024 : 2 ^ 53 * 2 ^ 106 + 1 < 2 ^ 1024) by (vm_compute; reflexivity).
  destruct (Z.le_gt_cases 52 e) as [Hbig|Hsmall].
  - rewrite (Z.max_l 0 (- (e - 52))), (Z.max_r 0 (e - 52)) by lia.
    rewrite (Z.max_r 0 e), (Z.max_l 0 (- e)) in Hlow by lia.
    rewrite Z.pow_0_r, !Z.mul_1_r in *.
    assert (Hpe : 2 ^ 53 = 2 ^ e * 2 ^ (53 - e)).
    { rewrite <- Z.pow_add_r by lia. f_equal; lia. }
    assert (He' : e = 52 \/ e = 53) by lia.
    assert (Hexact : exists j, a = j * (b * 2 ^ (e - 52)) /\
                               j * 2 ^ (e - 52) = ceil_div a b /\ 0 <= j <= 2 ^ 53).
    { destruct He' as [-> | ->].
      - change (2 ^ (52 - 52)) with 1. change (2 ^ (53 - 52)) with 2 in Hpe.
        assert (Hb12 : b = 1 \/ b = 2) by nia.
        destruct Hb12 as [-> | ->].
        + exists a. unfold ceil_div. rewrite Z.div_1_r. lia.
        + assert (a = 2 ^ 53) as -> by lia. exists (2 ^ 52).
          split; [reflexivity|]. split; [reflexivity|]. split; discriminate.
      - change (2 ^ (53 - 53)) with 1 in Hpe. change (2 ^ (53 - 52)) with 2.
        assert (b = 1) as -> by nia. assert (a = 2 ^ 53) as -> by lia.
        exists (2 ^ 52). split; [reflexivity|]. split; [reflexivity|]. split; discriminate. }
    destruct Hexact as (j & Hj & Hjk & Hjr).
    assert (Htpos : 0 < 2 ^ (e - 52)) by (apply Z.pow_pos_nonneg; lia).
    assert (Hm : Py.round_half_even a (b * 2 ^ (e - 52)) = j).
    { transitivity (Py.round_half_even (j * (b * 2 ^ (e - 52))) (b * 2 ^ (e - 52)));
        [f_equal; exact Hj | apply round_half_even_exact; lia]. }
    rewrite Hm.
    assert (0 < 2 ^ 106) by reflexivity.
    assert (Hkle : j * 2 ^ (e - 52) <= 2 ^ 53).
    { assert (j * 2 ^ (e - 52) <= j * 2 ^ (e - 52) * b) by nia. lia. }
    destruct (Z.leb_spec (2 ^ 1024) (j * 2 ^ (e - 52))); [lia|].
    eexists. split; [reflexivity|]. unfold Py.ceil. cbn [Py.expo Py.mant].
    destruct (Z.leb_spec 0 (e - 52)); [|lia].
    rewrite <- Hjk. ring.
  - rewrite (Z.max_r 0 (- (e - 52))), (Z.max_l 0 (e - 52)) by lia.
    rewrite Z.pow_0_r, !Z.mul_1_r.
    replace (- (e - 52)) with (52 - e) by lia.
    assert (Htpos : 0 < 2 ^ (52 - e)) by (apply Z.pow_pos_nonneg; lia).
    assert (Htle : 2 ^ (52 - e) <= 2 ^ 106) by (apply Z.pow_le_mono_r; lia).
    assert (H2t : 2 ^ (53 - e) = 2 * 2 ^ (52 - e)).
    { replace (53 - e) with (Z.succ (52 - e)) by lia. apply Z.pow_succ_r. lia. }
    (* the divisor stays below twice the scaling factor ... *)
    assert (Hb2t : b <= 2 * 2 ^ (52 - e) /\
                   (b = 2 * 2 ^ (52 - e) -> a = b * 2 ^ e /\ 0 <= e)).
    { destruct (Z.le_gt_cases 0 e) as [Hpos|Hneg].
      - rewrite (Z.max_r 0 e), (Z.max_l 0 (- e)), Z.pow_0_r, Z.mul_1_r in Hlow by lia.
        assert (Hpe : 2 ^ 53 = 2 ^ e * 2 ^ (53 - e)).
        { rewrite <- Z.pow_add_r by lia. f_equal; lia. }
        assert (0 < 2 ^ e) by (apply Z.pow_pos_nonneg; lia).
        split; [nia|]. intros Heq. split; [|assumption].
        assert (2 ^ 53 = 2 ^ e * b) by (rewrite Hpe, H2t, Heq; reflexivity). lia.
      - rewrite (Z.max_l 0 e), (Z.max_r 0 (- e)), Z.pow_0_r, Z.mul_1_r in Hlow by lia.
        assert (Hpe : 2 ^ (53 - e) = 2 ^ 53 * 2 ^ (- e)).
        { rewrite <- Z.pow_add_r by lia. f_equal; lia. }
        assert (2 <= 2 ^ (- e)).
        { change 2 with (2 ^ 1) at 1. apply Z.pow_le_mono_r; lia. }
        split; [nia|]. intros Heq. nia. }
    destruct Hb2t as [Hb2t Hbeq].
    set (T := 2 ^ (52 - e)) in *.
    set (k := ceil_div a b) in *.
    set (m := Py.round_half_even (a * T) b).
    assert (Hupper : m <= k * T).
    { apply round_half_even_le; [lia | nia]. }
    assert (Hlower : (k - 1) * T < m).
    { destruct (Z.eq_dec a (k * b)) as [Hak|Hak].
      - assert (m = k * T); [|nia].
        unfold m. rewrite Hak. replace (k * b * T) with (k * T * b) by ring.
        apply round_half_even_exact. lia.
      - apply round_half_even_gt with (c := T); [lia | nia |].
        destruct (Z.eq_dec b (2 * T)) as [Hb2|Hb2]; [|lia].
        destruct (Hbeq Hb2) as [Hab He0]. exfalso.
        assert (Hlt : a < k * b) by lia. rewrite Hab in Hk, Hlt.
        assert (k - 1 < 2 ^ e) by (apply Z.mul_lt_mono_pos_r with b; lia).
        assert (2 ^ e < k) by (apply Z.mul_lt_mono_pos_l with b; lia).
        lia. }
    assert (Hmle : m <= a * T + 1).
    { apply round_half_even_upper; nia. }
    assert (m < 2 ^ 1024) by nia.
    destruct (Z.leb_spec (2 ^ 1024) m); [lia|].
    eexists. split; [reflexivity|]. unfold Py.ceil. cbn [Py.expo Py.mant].
    destruct (Z.leb_spec 0 (e - 52)); [lia|].
    replace (- (e - 52)) with (52 - e) by lia. fold T.
    rewrite Z.mul_1_l.
    change (ceil_div m T = k). apply ceil_div_unique; lia.
Qed.

(** ** Construction of [DieDivider] *)

Lemma drop_prefix_app (p s : string) : drop_prefix p (p ++ s) = Some s.
Proof.
  induction p as [|c p IH]; simpl; [reflexivity|].
  rewrite Ascii.eqb_refl. exact IH.
Qed.

Lemma until_space_app (word rest : string) :
  spaceless word = true ->
  until_space (word ++ String " "%char rest)%string = (word, String " "%char rest).
Proof.
  induction word as [|c word IH]; simpl; intros H; [reflexivity|].
  apply andb_true_iff in H. destruct H as [Hc Hw].
  destruct (Ascii.eqb c " "%char); [discriminate|]. rewrite (IH Hw). reflexivity.
Qed.

Lemma uint_spaceless (d : Decimal.uint) :
  spaceless (NilEmpty.string_of_uint d) = true.
Proof. induction d; simpl; auto. Qed.

Lemma str_spaceless (z : Z) : spaceless (Py.str z) = true.
Proof.
  unfold Py.str, NilZero.string_of_int, NilZero.string_of_uint.
  destruct (Z.to_int z) as [d|d]; destruct d; simpl; auto using uint_spaceless.
Qed.

Lemma int_of_str_str (z : Z) : int_of_str (Py.str z) = Some z.
Proof.
  unfold int_of_str, Py.str. rewrite NilZero.isi.
  - simpl. rewrite DecimalZ.of_to. reflexivity.
  - destruct z; simpl; try discriminate.
    intros H. injection H. apply DecimalPos.Unsigned.to_uint_nonnil.
  - destruct z; simpl; try discriminate.
    intros H. injection H. apply DecimalPos.Unsigned.to_uint_nonnil.
Qed.

Lemma offending_sides_message (a b : Z) :
  offending_sides ("Cannot divide a die from " ++ Py.str a
                   ++ " sides, to " ++ Py.str b ++ " sides.")%string = Some (a, b).
Proof.
  unfold offending_sides. rewrite drop_prefix_app.
  change (" sides, to " ++ Py.str b ++ " sides.")%string
    with (String " "%char ("sides, to " ++ Py.str b ++ " sides.")%string).
  rewrite until_space_app by apply str_spaceless.
  change (String " "%char ("sides, to " ++ Py.str b ++ " sides.")%string)
    with (" sides, to " ++ Py.str b ++ " sides.")%string.
  rewrite drop_prefix_app.
  change (" sides.")%string with (String " "%char "sides."%string).
  rewrite until_space_app by apply str_spaceless.
  rewrite !int_of_str_str. reflexivity.
Qed.

Lemma DieDivider_init_cases (sides : Z) {St : Type} (source : DieBase.t St) :
  DieDivider.init sides source =
  if sides =? 0 then Raise ZeroDivisionError
  else if DieBase.sides source mod sides =? 0 then Ok (DieDivider.mk sides)
  else Raise (Exception ("Cannot divide a die from " ++ Py.str (DieBase.sides source)
                         ++ " sides, to " ++ Py.str sides ++ " sides.")%string).
Proof.
  unfold DieDivider.init, Py.mod_.
  destruct (sides =? 0); [reflexivity|].
  destruct (DieBase.sides source mod sides =? 0); reflexivity.
Qed.

(** C7: for a target with a non-zero number of sides, constructing a
    [DieDivider] raises exactly when [source.sides mod sides] is not zero;
    what it raises is the [Exception] whose message
    ["Cannot divide a die from <source.sides> sides, to <sides> sides."]
    holds both side counts, which can be read back from it.  With
    [sides = 4] over a six-sided source the construction fails. *)
Theorem DieDivider_init_raises (sides : Z) {St : Type} (source : DieBase.t St) :
  sides <> 0 ->
  ((exists e, DieDivider.init sides source = Raise e)
   <-> DieBase.sides source mod sides <> 0) /\
  (DieBase.sides source mod sides = 0 ->
   DieDivider.init sides source = Ok (DieDivider.mk sides)) /\
  (forall e, DieDivider.init sides source = Raise e ->
     exists msg,
       e = Exception msg /\
       msg = ("Cannot divide a die from " ++ Py.str (DieBase.sides source)
              ++ " sides, to " ++ Py.str sides ++ " sides.")%string /\
       offending_sides msg = Some (DieBase.sides source, sides)) /\
  (sides = 4 -> DieBase.sides source = 6 ->
   DieDivider.init sides source
   = Raise (Exception "Cannot divide a die from 6 sides, to 4 sides."%string)).
Proof.
  intros Hs. rewrite DieDivider_init_cases.
  destruct (Z.eqb_spec sides 0); [contradiction|].
  destruct (Z.eqb_spec (DieBase.sides source mod sides) 0) as [Hm|Hm].
  - split; [|split; [|split]].
    + split; [intros (e & He); discriminate | contradiction].
    + reflexivity.
    + intros e He. discriminate.
    + intros -> H6. rewrite H6 in Hm. discriminate.
  - split; [|split; [|split]].
    + split; [auto | eauto].
    + contradiction.
    + intros e He. inversion He. eexists. split; [reflexivity|].
      split; [reflexivity | apply offending_sides_message].
    + intros -> H6. rewrite H6. reflexivity.
Qed.

(** The construction test [DieDivider(sides=4, source=...)] over a
    six-sided die. *)
Lemma DieDivider_init_raises_witness :
  DieDivider.init 4 (Die.as_die 6)
  = Raise (Exception "Cannot divide a die from 6 sides, to 4 sides."%string) /\
  offending_sides "Cannot divide a die from 6 sides, to 4 sides."%string = Some (6, 4).
Proof.
  destruct (DieDivider_init_raises 4 (Die.as_die 6)) as (_ & _ & Hmsg & Hex);
    [discriminate|].
  split; [exact (Hex eq_refl eq_refl)|].
  destruct (Hmsg _ (Hex eq_refl eq_refl)) as (msg & He & _ & Hoff).
  injection He as <-. exact Hoff.
Defined.

(** ** Construction performs no validation *)

(** C5, refuted as stated: dice with zero or negative sides are
    constructed without any error, and the construction of a [DiePower]
    for two sides over a one-sided source never raises: it is still
    searching for [num_dice] after any number of iterations. *)
Lemma construction_rejects_nothing :
  DiePower.init 1 0 (Die.as_die 6) = Ok (DiePower.mk 0 0) /\
  DieCombo.init 1 (-3) (Die.as_die 6) = Ok (DieCombo.mk (-3) 0 (-1)) /\
  DieDivider.init (-3) (Die.as_die 6) = Ok (DieDivider.mk (-3)) /\
  ~ (exists fuel e, DiePower.init fuel 2 (Die.as_die 1) = Raise e).
Proof.
  split; [reflexivity|]. split; [reflexivity|]. split; [reflexivity|].
  intros (fuel & e & H). unfold DiePower.init in H.
  rewrite num_dice_loop_diverges in H; simpl; try lia. discriminate.
Qed.

(** C5, as the code has it: construction validates neither side count.
    With [sides >= 2] and a source of -1, 0 or 1 sides the search for
    [num_dice] never ends, so no die is returned and nothing is raised;
    with [sides <= 0] a [DiePower] is built with [num_dice = 0]; a
    [DieCombo] is built for [sides < 0] (with [divider = -1]) and raises
    [ZeroDivisionError] for [sides = 0]; a [DieDivider] raises
    [ZeroDivisionError] for [sides = 0] and is built for [sides < 0]
    whenever [source.sides mod sides] is zero.  Whatever construction
    returns is completely initialised: [num_dice] is a non-negative number
    with [source.sides ^ num_dice >= sides], and [divider] is
    [source.sides ^ num_dice // sides]. *)
Theorem construction_unvalidated (sides : Z) {St : Type} (source : DieBase.t St) :
  (2 <= sides -> -1 <= DieBase.sides source <= 1 ->
   forall fuel, DiePower.init fuel sides source = OutOfFuel /\
                DieCombo.init fuel sides source = OutOfFuel) /\
  (sides <= 0 ->
   forall fuel, DiePower.init (S fuel) sides source = Ok (DiePower.mk sides 0)) /\
  (sides < 0 ->
   forall fuel, DieCombo.init (S fuel) sides source = Ok (DieCombo.mk sides 0 (-1))) /\
  (sides = 0 ->
   forall fuel, DieCombo.init (S fuel) sides source = Raise ZeroDivisionError) /\
  (sides = 0 -> DieDivider.init sides source = Raise ZeroDivisionError) /\
  (sides < 0 -> DieBase.sides source mod sides = 0 ->
   DieDivider.init sides source = Ok (DieDivider.mk sides)) /\
  (forall fuel p, DiePower.init fuel sides source = Ok p ->
     DiePower.sides p = sides /\ 0 <= DiePower.num_dice p /\
     sides <= DieBase.sides source ^ DiePower.num_dice p) /\
  (forall fuel c, DieCombo.init fuel sides source = Ok c ->
     DieCombo.sides c = sides /\ 0 <= DieCombo.num_dice c /\
     sides <= DieBase.sides source ^ DieCombo.num_dice c /\
     DieCombo.divider c = DieBase.sides source ^ DieCombo.num_dice c / sides).
Proof.
  split; [|split; [|split; [|split; [|split; [|split; [|split]]]]]].
  - intros Hs Hb fuel. unfold DiePower.init, DieCombo.init.
    rewrite num_dice_loop_diverges by assumption. split; reflexivity.
  - intros Hs fuel. unfold DiePower.init. simpl.
    destruct (Z.leb_spec sides 1); [reflexivity | lia].
  - intros Hs fuel. unfold DieCombo.init, Py.floordiv. simpl.
    destruct (Z.leb_spec sides 1); [|lia].
    destruct (Z.eqb_spec sides 0); [lia|].
    do 2 f_equal. symmetry. apply Z.div_unique with (r := 1 + sides); lia.
  - intros -> fuel. reflexivity.
  - intros ->. reflexivity.
  - intros Hs Hm. rewrite DieDivider_init_cases.
    destruct (Z.eqb_spec sides 0); [lia|]. rewrite Hm. reflexivity.
  - intros fuel p Hp. apply DiePower_init_Ok in Hp. destruct Hp as (n & Hn & ->).
    apply num_dice_loop_sound in Hn. simpl. intuition.
  - intros fuel c Hc. apply DieCombo_init_Ok in Hc. destruct Hc as (n & Hn & Hs & ->).
    apply num_dice_loop_sound in Hn. simpl. intuition.
Qed.

Lemma construction_unvalidated_witness :
  DiePower.init 1000 2 (Die.as_die 1) = OutOfFuel /\
  DieCombo.init 1000 2 (Die.as_die 1) = OutOfFuel /\
  DiePower.init 1 (-3) (Die.as_die 1) = Ok (DiePower.mk (-3) 0) /\
  DieDivider.init (-3) (Die.as_die 6) = Ok (DieDivider.mk (-3)).
Proof.
  destruct (construction_unvalidated 2 (Die.as_die 1)) as (Hloop & _).
  destruct (construction_unvalidated (-3) (Die.as_die 1)) as (_ & Hneg & _).
  destruct (construction_unvalidated (-3) (Die.as_die 6))
    as (_ & _ & _ & _ & _ & Hdiv & _).
  destruct (Hloop ltac:(lia) ltac:(simpl; lia) 1000%nat) as [Hp Hc].
  split; [exact Hp|]. split; [exact Hc|].
  split; [apply (Hneg ltac:(lia) 0%nat) | apply Hdiv; [lia | reflexivity]].
Defined.

(** ** Rolling a [DieDivider] *)

Section DividerOverSource.

Context {St : Type} (source : DieBase.t St) (self : DieDivider.t).

Hypothesis sides_pos : 1 <= DieDivider.sides self.
Hypothesis constructed : DieBase.sides source mod DieDivider.sides self = 0.
Hypothesis source_small : DieBase.sides source <= 2 ^ 53.

(** One roll takes one draw [r] from the source and returns the ceiling
    of [r / divisor]. *)
Lemma DieDivider_roll_ceil (st : St) (r : Z) (st' : St) :
  DieBase.roll source st = Ok (r, st') ->
  1 <= r <= DieBase.sides source ->
  DieDivider.roll self source st
  = Ok (ceil_div r (DieBase.sides source / DieDivider.sides self), st').
Proof.
  intros Hroll Hr. unfold DieDivider.roll, bind, lift, Py.floordiv, ret.
  destruct (Z.eqb_spec (DieDivider.sides self) 0); [lia|].
  rewrite Hroll.
  pose proof (Z.div_exact (DieBase.sides source) (DieDivider.sides self) ltac:(lia))
    as [_ Hex].
  specialize (Hex constructed).
  set (d := DieBase.sides source / DieDivider.sides self) in *.
  assert (Hd : 1 <= d <= 2 ^ 53) by nia.
  destruct (truediv_ceil_exact r d ltac:(lia) Hd) as (x & Hx & Hceil).
  rewrite Hx, Hceil. reflexivity.
Qed.

Variable good : St -> Prop.
Hypothesis roll_in_range : forall st r st',
    good st -> DieBase.roll source st = Ok (r, st') ->
    1 <= r <= DieBase.sides source /\ good st'.

Lemma DieDivider_rolls_map (n : nat) (st : St) (l : list Z) (st' : St) :
  good st ->
  DieBase.rolls (DieBase.roll source) n st = Ok (l, st') ->
  DieBase.rolls (DieDivider.roll self source) n st
  = Ok (map (fun r => ceil_div r (DieBase.sides source / DieDivider.sides self)) l, st').
Proof.
  revert st l st'. induction n as [|n IH]; intros st l st' Hg H; simpl in H.
  - inversion H; subst. reflexivity.
  - apply bind_Ok in H. destruct H as (r & st1 & Hr & H).
    apply bind_Ok in H. destruct H as (rs & st2 & Hrs & H).
    inversion H; subst.
    destruct (roll_in_range _ _ _ Hg Hr) as [Hrange Hg1].
    cbn [DieBase.rolls]. unfold bind at 1.
    rewrite (DieDivider_roll_ceil _ _ _ Hr Hrange). unfold bind.
    rewrite (IH _ _ _ Hg1 Hrs). reflexivity.
Qed.

End DividerOverSource.

(** ** A [DieDivider] over the enumeration of one die *)

Lemma range_In (a b x : Z) : In x (Py.range a b) <-> a <= x < b.
Proof.
  unfold Py.range. rewrite in_map_iff. split.
  - intros (i & <- & Hi). apply in_seq in Hi. lia.
  - intros Hx. exists (Z.to_nat (x - a)). split; [lia|]. apply in_seq. lia.
Qed.

Lemma range_length (a b : Z) : length (Py.range a b) = Z.to_nat (b - a).
Proof. unfold Py.range. rewrite length_map, length_seq. reflexivity. Qed.

Lemma seq_from (s n : nat) : seq s n = map (Nat.add s) (seq 0 n).
Proof.
  revert s. induction n as [|n IH]; intros s; simpl; [reflexivity|].
  rewrite Nat.add_0_r. f_equal. rewrite (IH (S s)), (IH 1%nat), map_map.
  apply map_ext. intros i. lia.
Qed.

Lemma range_app (a b c : Z) :
  a <= b <= c -> Py.range a c = Py.range a b ++ Py.range b c.
Proof.
  intros H. unfold Py.range.
  replace (Z.to_nat (c - a)) with (Z.to_nat (b - a) + Z.to_nat (c - b))%nat by lia.
  rewrite seq_app, map_app. f_equal.
  rewrite (seq_from (0 + Z.to_nat (b - a))), map_map.
  apply map_ext. intros i. lia.
Qed.

Lemma batches_one (b : Z) : concat (batches b 1) = Py.range 1 (b + 1).
Proof.
  unfold batches. simpl. induction (Py.range 1 (b + 1)) as [|i l IH]; simpl;
    [reflexivity | rewrite IH; reflexivity].
Qed.

Lemma map_nth_mod_seq (l : list Z) :
  map (fun i => nth ((0 + i) mod length l) l 0) (seq 0 (length l)) = l.
Proof.
  transitivity (map (fun i => nth i l 0) (seq 0 (length l))).
  - apply map_ext_in. intros i Hi. apply in_seq in Hi.
    simpl. rewrite Nat.mod_small by lia. reflexivity.
  - induction l as [|x l IH]; simpl; [reflexivity|].
    f_equal. rewrite <- seq_shift, map_map. exact IH.
Qed.

Lemma DiePerfect_roll_in_range (P : Z -> Prop) (st : DiePerfect.t) (r : Z)
      (st' : DiePerfect.t) :
  Forall P (DiePerfect.saved (DiePerfect.rolls st)) ->
  DiePerfect.roll st = Ok (r, st') ->
  P r /\ Forall P (DiePerfect.saved (DiePerfect.rolls st')).
Proof.
  intros Hall. unfold DiePerfect.roll, DiePerfect.next.
  cbn [DiePerfect.rolls DiePerfect.saved DiePerfect.pos DiePerfect.sides
       DiePerfect.num_dice DiePerfect.num_rolls].
  destruct (DiePerfect.saved (DiePerfect.rolls st)) as [|x items] eqn:E; [discriminate|].
  pose proof E as E'. rewrite <- E. clear E. intros H.
  set (p := DiePerfect.pos (DiePerfect.rolls st)) in *.
  set (items' := DiePerfect.saved (DiePerfect.rolls st)) in *.
  assert (Hr : r = nth p items' x) by congruence.
  assert (Hst : DiePerfect.saved (DiePerfect.rolls st') = items').
  { assert (Hst : st' = DiePerfect.mk (DiePerfect.sides st) (DiePerfect.num_dice st)
                          (DiePerfect.num_rolls st + 1)
                          (DiePerfect.mkcycle items' (S p mod length items')))
      by congruence.
    rewrite Hst. reflexivity. }
  rewrite Hst, Hr. rewrite <- E' in Hall. split; [|exact Hall].
  rewrite Forall_forall in Hall. apply Hall.
  destruct (Nat.lt_ge_cases p (length items')).
  - apply nth_In. assumption.
  - rewrite nth_overflow by assumption. rewrite E'. left. reflexivity.
Qed.

Lemma count_occ_map_const (g : Z -> Z) (l : list Z) (v f : Z) :
  (forall x, In x l -> g x = v) ->
  count_occ Z.eq_dec (map g l) f = if Z.eq_dec v f then length l else 0%nat.
Proof.
  induction l as [|x l IH]; intros Hg; simpl.
  - destruct (Z.eq_dec v f); reflexivity.
  - rewrite (Hg x) by (left; reflexivity). rewrite IH by (intros; apply Hg; right; assumption).
    destruct (Z.eq_dec v f); reflexivity.
Qed.

(** Each face gets a block of [d] consecutive source values. *)
Lemma count_ceil_div_blocks (d : Z) (k : nat) (f : Z) :
  1 <= d ->
  count_occ Z.eq_dec (map (fun r => ceil_div r d) (Py.range 1 (Z.of_nat k * d + 1))) f
  = if (1 <=? f) && (f <=? Z.of_nat k) then Z.to_nat d else 0%nat.
Proof.
  intros Hd. induction k as [|k IH].
  - simpl. destruct (Z.leb_spec 1 f), (Z.leb_spec f 0); simpl; try reflexivity; lia.
  - rewrite (range_app 1 (Z.of_nat k * d + 1) (Z.of_nat (S k) * d + 1)) by nia.
    rewrite map_app, count_occ_app, IH.
    rewrite (count_occ_map_const _ _ (Z.of_nat (S k))).
    + rewrite range_length.
      replace (Z.of_nat (S k) * d + 1 - (Z.of_nat k * d + 1)) with d by lia.
      destruct (Z.eq_dec (Z.of_nat (S k)) f) as [Heq|Hne];
        destruct (Z.leb_spec 1 f), (Z.leb_spec f (Z.of_nat k)),
                 (Z.leb_spec f (Z.of_nat (S k)));
        simpl; lia.
    + intros x Hx. apply range_In in Hx. apply ceil_div_unique; nia.
Qed.

(** The enumeration of one die with [S] sides, freshly built, and what
    [S] rolls of it give. *)
Lemma DiePerfect_one_die (S : Z) :
  1 <= S ->
  DiePerfect.init S 1
  = Ok (DiePerfect.mk S 1 0 (DiePerfect.mkcycle (Py.range 1 (S + 1)) 0)) /\
  DieBase.rolls DiePerfect.roll (Z.to_nat S)
    (DiePerfect.mk S 1 0 (DiePerfect.mkcycle (Py.range 1 (S + 1)) 0))
  = Ok (Py.range 1 (S + 1),
        DiePerfect.mk S 1 S (DiePerfect.mkcycle (Py.range 1 (S + 1)) 0)).
Proof.
  intros HS. split.
  - rewrite DiePerfect_init_batches. change (Z.to_nat 1) with 1%nat.
    rewrite batches_one. reflexivity.
  - assert (Hlen : length (Py.range 1 (S + 1)) = Z.to_nat S)
      by (rewrite range_length; f_equal; lia).
    rewrite DiePerfect_rolls.
    + rewrite <- Hlen at 1. rewrite map_nth_mod_seq. do 3 f_equal; [lia|].
      f_equal. rewrite Hlen. simpl. apply Nat.Div0.mod_same.
    + intros E. rewrite E in Hlen. simpl in Hlen. lia.
    + lia.
Qed.

(** While [source.sides] does not exceed [2 ^ 53] the divider is exact: a
    constructed [DieDivider] with a positive number of sides
    turns one source draw [r] into the ceiling of [r / divisor], and
    [source.sides] rolls over a fresh enumeration die show every face from
    1 to [sides] exactly [source.sides / sides] times. *)
Theorem DieDivider_exact_below_2_53 (sides S : Z) :
  1 <= sides -> 1 <= S <= 2 ^ 53 -> S mod sides = 0 ->
  (forall (St : Type) (source : DieBase.t St) (st : St) (r : Z) (st' : St),
      DieBase.sides source = S ->
      DieBase.roll source st = Ok (r, st') -> 1 <= r <= S ->
      DieDivider.init sides source = Ok (DieDivider.mk sides) /\
      DieDivider.roll (DieDivider.mk sides) source st = Ok (ceil_div r (S / sides), st')) /\
  exists d d' l,
    DiePerfect.init S 1 = Ok d /\
    DieBase.call (DieDivider.as_die (DieDivider.mk sides) (DiePerfect.as_die d)) S d
    = Ok (l, d') /\
    l = map (fun r => ceil_div r (S / sides)) (Py.range 1 (S + 1)) /\
    DiePerfect.num_rolls d' = S /\
    forall f, 1 <= f <= sides -> Z.of_nat (count_occ Z.eq_dec l f) = S / sides.
Proof.
  intros Hsides HS Hmod. split.
  - intros St source st r st' <- Hroll Hr. split.
    + rewrite DieDivider_init_cases.
      destruct (Z.eqb_spec sides 0); [lia|].
      destruct (Z.eqb_spec (DieBase.sides source mod sides) 0); [reflexivity | contradiction].
    + apply DieDivider_roll_ceil; simpl; (assumption || lia).
  - destruct (DiePerfect_one_die S ltac:(lia)) as [Hinit Hrolls].
    set (d := DiePerfect.mk S 1 0 (DiePerfect.mkcycle (Py.range 1 (S + 1)) 0)) in *.
    exists d. eexists. eexists. split; [exact Hinit|]. split.
    + unfold DieBase.call. cbn [DieDivider.as_die DieBase.roll].
      apply (DieDivider_rolls_map (DiePerfect.as_die d) (DieDivider.mk sides))
        with (good := fun st => Forall (fun x => 1 <= x <= S)
                                       (DiePerfect.saved (DiePerfect.rolls st)));
        simpl; try (assumption || lia).
      * intros st r st'. apply DiePerfect_roll_in_range.
      * apply Forall_forall. intros x Hx. apply range_In in Hx. lia.
      * exact Hrolls.
    + split; [reflexivity|]. split; [reflexivity|].
      intros f Hf. cbn [DiePerfect.as_die DieBase.sides DiePerfect.sides d].
      pose proof (Z.div_exact S sides ltac:(lia)) as [_ Hex]. specialize (Hex Hmod).
      assert (Hd : 1 <= S / sides) by nia.
      replace (S + 1) with (Z.of_nat (Z.to_nat sides) * (S / sides) + 1) by nia.
      rewrite count_ceil_div_blocks by exact Hd.
      destruct (Z.leb_spec 1 f), (Z.leb_spec f (Z.of_nat (Z.to_nat sides))); simpl; lia.
Qed.

(** The repository's own test [test_d3_from_d6]. *)
Lemma DieDivider_exact_below_2_53_witness :
  exists d d',
    DiePerfect.init 6 1 = Ok d /\
    DieBase.call (DieDivider.as_die (DieDivider.mk 3) (DiePerfect.as_die d)) 6 d
    = Ok ([1; 1; 2; 2; 3; 3], d') /\
    forall f, 1 <= f <= 3 ->
              Z.of_nat (count_occ Z.eq_dec [1; 1; 2; 2; 3; 3] f) = 2.
Proof.
  destruct (DieDivider_exact_below_2_53 3 6) as (_ & d & d' & l & Hd & Hcall & Hl & _ & Hcount);
    [lia | vm_compute; intuition discriminate | reflexivity |].
  exists d, d'. split; [exact Hd|].
  assert (Hl' : l = [1; 1; 2; 2; 3; 3]) by (rewrite Hl; reflexivity).
  rewrite Hl' in *. split; [exact Hcall | exact Hcount].
Defined.

(** C3 fails above [2 ^ 53]: a [DieDivider] with [2 ^ 53 + 1] sides over a
    uniform die with as many sides has divisor 1; when the source rolls its
    highest face [2 ^ 53 + 1], true division rounds it to the float
    [2 ^ 53] and [roll] returns [2 ^ 53], which is not the ceiling of
    [r / divisor]. *)
Theorem DieDivider_roll_above_2_53 :
  DieDivider.init (2 ^ 53 + 1) (Die.as_die (2 ^ 53 + 1)) = Ok (DieDivider.mk (2 ^ 53 + 1)) /\
  DieBase.roll (Die.as_die (2 ^ 53 + 1)) stuck_rng
  = Ok (2 ^ 53 + 1, fun n => stuck_rng (S n)) /\
  DieDivider.roll (DieDivider.mk (2 ^ 53 + 1)) (Die.as_die (2 ^ 53 + 1)) stuck_rng
  = Ok (2 ^ 53, fun n => stuck_rng (S n)) /\
  ceil_div (2 ^ 53 + 1) ((2 ^ 53 + 1) / (2 ^ 53 + 1)) = 2 ^ 53 + 1.
Proof.
  repeat split.
Qed.

(** ** Counting the rejected batches *)

Lemma batches_S (b : Z) (n : nat) :
  batches b (S n)
  = flat_map (fun d => map (cons d) (batches b n)) (Py.range 1 (b + 1)).
Proof. reflexivity. Qed.

(** [batches b n] holds exactly the tuples of [{1..b}^n] ... *)
Lemma batches_In (b : Z) (n : nat) (t : list Z) :
  In t (batches b n) <-> length t = n /\ Forall (fun d => 1 <= d <= b) t.
Proof.
  revert t. induction n as [|n IH]; intros t.
  - simpl. split.
    + intros [<-|[]]. auto.
    + intros [Hl _]. destruct t; [auto | discriminate].
  - rewrite batches_S, in_flat_map. split.
    + intros (d & Hd & Ht). apply in_map_iff in Ht. destruct Ht as (t' & <- & Ht').
      apply IH in Ht'. destruct Ht' as [Hl Hf]. apply range_In in Hd.
      split; [simpl; lia | constructor; [lia | exact Hf]].
    + intros [Hl Hf]. destruct t as [|d t']; [discriminate|].
      inversion Hf; subst. exists d. split; [apply range_In; lia|].
      apply in_map, IH. split; [simpl in Hl; lia | assumption].
Qed.

Lemma range_NoDup (a b : Z) : NoDup (Py.range a b).
Proof.
  unfold Py.range. apply Injective_map_NoDup; [|apply seq_NoDup].
  intros x y H. lia.
Qed.

(** ... each of them once. *)
Lemma batches_NoDup (b : Z) (n : nat) : NoDup (batches b n).
Proof.
  induction n as [|n IH].
  - simpl. constructor; [intros [] | constructor].
  - rewrite batches_S. generalize (range_NoDup 1 (b + 1)).
    generalize (Py.range 1 (b + 1)) as R.
    induction R as [|d R IHR]; intros HR; simpl; [constructor|].
    inversion HR; subst. apply NoDup_app.
    + apply Injective_map_NoDup; [|exact IH].
      intros x y H. inversion H. reflexivity.
    + apply IHR. assumption.
    + intros t Ht Ht'. apply in_map_iff in Ht. destruct Ht as (t1 & <- & _).
      apply in_flat_map in Ht'. destruct Ht' as (d' & Hd' & Ht').
      apply in_map_iff in Ht'. destruct Ht' as (t2 & Heq & _).
      inversion Heq; subst. contradiction.
Qed.

(** Reversing every tuple only reorders the sample space. *)
Lemma batches_rev (b : Z) (n : nat) :
  Permutation (map (@rev Z) (batches b n)) (batches b n).
Proof.
  apply NoDup_Permutation.
  - apply Injective_map_NoDup; [|apply batches_NoDup].
    intros x y H. apply rev_inj. exact H.
  - apply batches_NoDup.
  - intros t. rewrite in_map_iff. split.
    + intros (t' & <- & Ht'). apply batches_In in Ht'. destruct Ht' as [Hl Hf].
      apply batches_In. split; [rewrite length_rev; exact Hl | apply Forall_rev; exact Hf].
    + intros Ht. exists (rev t). split; [apply rev_involutive|].
      apply batches_In in Ht. destruct Ht as [Hl Hf].
      apply batches_In. split; [rewrite length_rev; exact Hl | apply Forall_rev; exact Hf].
Qed.

Lemma composite_lsd_app (b : Z) (l : list Z) (d : Z) :
  composite_lsd b (l ++ [d]) = composite_lsd b l + b ^ Z.of_nat (length l) * (d - 1).
Proof.
  induction l as [|x l IH]; simpl length; simpl app; cbn [composite_lsd].
  - change (Z.of_nat 0) with 0. rewrite Z.pow_0_r. ring.
  - rewrite IH, Nat2Z.inj_succ, Z.pow_succ_r by lia. ring.
Qed.

(** The two digit orders agree up to reversal of the batch. *)
Lemma composite_lsd_rev (b : Z) (t : list Z) :
  composite_lsd b (rev t) = composite_msd b t.
Proof.
  induction t as [|d t IH]; [reflexivity|].
  simpl rev. rewrite composite_lsd_app, IH, length_rev. cbn [composite_msd]. ring.
Qed.

Lemma range_shift (a b c : Z) :
  map (Z.add c) (Py.range a b) = Py.range (c + a) (c + b).
Proof.
  unfold Py.range. rewrite map_map.
  replace (c + b - (c + a)) with (b - a) by lia.
  apply map_ext. intros i. lia.
Qed.

Lemma map_flat_map {A B C : Type} (f : B -> C) (g : A -> list B) (l : list A) :
  map f (flat_map g l) = flat_map (fun x => map f (g x)) l.
Proof.
  induction l as [|x l IH]; simpl; [reflexivity|].
  rewrite map_app, IH. reflexivity.
Qed.

Lemma range_blocks (N : Z) (k : nat) :
  0 <= N ->
  flat_map (fun d => Py.range (N * (d - 1)) (N * (d - 1) + N))
           (Py.range 1 (Z.of_nat k + 1))
  = Py.range 0 (Z.of_nat k * N).
Proof.
  intros HN. induction k as [|k IH]; [reflexivity|].
  rewrite (range_app 1 (Z.of_nat k + 1) (Z.of_nat (S k) + 1)) by lia.
  rewrite flat_map_app, IH.
  replace (Py.range (Z.of_nat k + 1) (Z.of_nat (S k) + 1)) with [Z.of_nat k + 1].
  - simpl flat_map. rewrite app_nil_r.
    rewrite (range_app 0 (Z.of_nat k * N) (Z.of_nat (S k) * N)) by nia.
    f_equal. f_equal; lia.
  - unfold Py.range.
    replace (Z.to_nat (Z.of_nat (S k) + 1 - (Z.of_nat k + 1))) with 1%nat by lia.
    simpl. f_equal. lia.
Qed.

(** Most-significant-first, the batches in lexicographic order are the
    numbers 0, 1, ..., [b ^ n - 1] in increasing order. *)
Lemma msd_batches (b : Z) (n : nat) :
  0 <= b ->
  map (composite_msd b) (batches b n) = Py.range 0 (b ^ Z.of_nat n).
Proof.
  intros Hb. induction n as [|n IH]; [reflexivity|].
  rewrite batches_S, map_flat_map.
  rewrite Nat2Z.inj_succ, Z.pow_succ_r by lia.
  assert (HN : 0 <= b ^ Z.of_nat n) by (apply Z.pow_nonneg; exact Hb).
  replace (b * b ^ Z.of_nat n) with (Z.of_nat (Z.to_nat b) * b ^ Z.of_nat n) by lia.
  rewrite <- range_blocks by exact HN.
  replace (Z.of_nat (Z.to_nat b) + 1) with (b + 1) by lia.
  apply flat_map_ext. intros d.
  rewrite map_map.
  transitivity (map (Z.add (b ^ Z.of_nat n * (d - 1))) (map (composite_msd b) (batches b n))).
  - rewrite map_map. apply map_ext_in. intros t Ht.
    apply batches_In in Ht. destruct Ht as [Hl _].
    cbn [composite_msd]. rewrite Hl. reflexivity.
  - rewrite IH, range_shift. f_equal. lia.
Qed.

Lemma batches_length (b : Z) (n : nat) :
  0 <= b -> length (batches b n) = Z.to_nat (b ^ Z.of_nat n).
Proof.
  intros Hb. rewrite <- (length_map (composite_msd b)), msd_batches by exact Hb.
  rewrite range_length. f_equal. lia.
Qed.

Lemma filter_all {A : Type} (p : A -> bool) (l : list A) :
  (forall x, In x l -> p x = true) -> filter p l = l.
Proof.
  induction l as [|x l IH]; intros H; simpl; [reflexivity|].
  rewrite (H x) by (left; reflexivity). f_equal. apply IH. intros y Hy. apply H. right. exact Hy.
Qed.

Lemma filter_none {A : Type} (p : A -> bool) (l : list A) :
  (forall x, In x l -> p x = false) -> filter p l = [].
Proof.
  induction l as [|x l IH]; intros H; simpl; [reflexivity|].
  rewrite (H x) by (left; reflexivity). apply IH. intros y Hy. apply H. right. exact Hy.
Qed.

Lemma filter_range_below (N T : Z) :
  0 <= T <= N ->
  length (filter (fun x => x <? T) (Py.range 0 N)) = Z.to_nat T.
Proof.
  intros H. rewrite (range_app 0 T N) by lia. rewrite filter_app, length_app.
  rewrite filter_all, filter_none.
  - rewrite range_length. simpl. lia.
  - intros x Hx. apply range_In in Hx. apply Z.ltb_ge. lia.
  - intros x Hx. apply range_In in Hx. apply Z.ltb_lt. lia.
Qed.

Lemma filter_length_Permutation {A : Type} (p : A -> bool) (l l' : list A) :
  Permutation l l' -> length (filter p l) = length (filter p l').
Proof.
  induction 1 as [|x l l' _ IH|x y l|l l' l'' _ IH1 _ IH2]; simpl.
  - reflexivity.
  - destruct (p x); simpl; congruence.
  - destruct (p x), (p y); reflexivity.
  - congruence.
Qed.

Lemma filter_map_length {A B : Type} (p : B -> bool) (g : A -> B) (l : list A) :
  length (filter p (map g l)) = length (filter (fun x => p (g x)) l).
Proof.
  induction l as [|x l IH]; simpl; [reflexivity|].
  destruct (p (g x)); simpl; congruence.
Qed.

(** Exactly [T] of the [b ^ n] batches have a composite below [T], in
    either digit order. *)
Lemma batches_below_msd (b : Z) (n : nat) (T : Z) :
  0 <= b -> 0 <= T <= b ^ Z.of_nat n ->
  length (filter (fun t => composite_msd b t <? T) (batches b n)) = Z.to_nat T.
Proof.
  intros Hb HT.
  rewrite <- (filter_map_length (fun x => x <? T) (composite_msd b)).
  rewrite msd_batches by exact Hb. apply filter_range_below. exact HT.
Qed.

Lemma batches_below_lsd (b : Z) (n : nat) (T : Z) :
  0 <= b -> 0 <= T <= b ^ Z.of_nat n ->
  length (filter (fun t => composite_lsd b t <? T) (batches b n)) = Z.to_nat T.
Proof.
  intros Hb HT.
  rewrite <- (filter_length_Permutation _ _ _ (batches_rev b n)).
  rewrite filter_map_length.
  rewrite <- (batches_below_msd b n T Hb HT).
  f_equal. apply filter_ext. intros t. rewrite composite_lsd_rev. reflexivity.
Qed.

(** ** The enumeration die cycles through the product *)

(** C9: [DiePerfect(sides=2, num_dice=2)] is built with the cycle
    [1,1, 1,2, 2,1, 2,2]; its first 8 rolls return exactly that sequence,
    and for every [k] its first [k] rolls return the cycle repeated: roll
    number [i] (from 0) returns item [i mod 8].  In general a
    [DiePerfect] is built with the flattening of [{1..sides}^num_dice]
    as its cycle, every roll returns the next item of the cycle, wrapping
    around, and the tuples come in lexicographic order: read as numbers,
    most significant digit first, they are 0, 1, 2, ... in this order. *)
Theorem DiePerfect_cycles_product :
  (exists d d8,
      DiePerfect.init 2 2 = Ok d /\
      DieBase.call (DiePerfect.as_die d) 8 d = Ok ([1; 1; 1; 2; 2; 1; 2; 2], d8)) /\
  (forall k : nat,
      exists d dk,
        DiePerfect.init 2 2 = Ok d /\
        DieBase.call (DiePerfect.as_die d) (Z.of_nat k) d
        = Ok (map (fun i => nth (i mod 8) [1; 1; 1; 2; 2; 1; 2; 2] 0) (seq 0 k), dk)) /\
  batches 2 2 = [[1; 1]; [1; 2]; [2; 1]; [2; 2]] /\
  (forall (sides num_dice : Z) (k : nat),
      exists d,
        DiePerfect.init sides num_dice = Ok d /\
        DiePerfect.saved (DiePerfect.rolls d)
        = concat (batches sides (Z.to_nat num_dice)) /\
        (concat (batches sides (Z.to_nat num_dice)) <> [] ->
         exists dk,
           DieBase.call (DiePerfect.as_die d) (Z.of_nat k) d
           = Ok (map (fun i =>
                        nth (i mod length (concat (batches sides (Z.to_nat num_dice))))
                            (concat (batches sides (Z.to_nat num_dice))) 0)
                     (seq 0 k), dk))) /\
  (forall (sides : Z) (n : nat),
      0 <= sides ->
      map (composite_msd sides) (batches sides n) = Py.range 0 (sides ^ Z.of_nat n)).
Proof.
  assert (Hgen : forall (sides num_dice : Z) (k : nat),
      exists d,
        DiePerfect.init sides num_dice = Ok d /\
        DiePerfect.saved (DiePerfect.rolls d)
        = concat (batches sides (Z.to_nat num_dice)) /\
        (concat (batches sides (Z.to_nat num_dice)) <> [] ->
         exists dk,
           DieBase.call (DiePerfect.as_die d) (Z.of_nat k) d
           = Ok (map (fun i =>
                        nth (i mod length (concat (batches sides (Z.to_nat num_dice))))
                            (concat (batches sides (Z.to_nat num_dice))) 0)
                     (seq 0 k), dk))).
  { intros sides num_dice k. eexists. split; [apply DiePerfect_init_batches|].
    split; [reflexivity|]. intros Hne. eexists.
    unfold DieBase.call. rewrite Nat2Z.id. cbn [DiePerfect.as_die DieBase.roll].
    rewrite DiePerfect_rolls.
    - reflexivity.
    - exact Hne.
    - destruct (concat (batches sides (Z.to_nat num_dice))); [contradiction | simpl; lia]. }
  split; [|split; [|split; [|split]]].
  - exists (DiePerfect.mk 2 2 0 (DiePerfect.mkcycle [1; 1; 1; 2; 2; 1; 2; 2] 0)),
           (DiePerfect.mk 2 2 8 (DiePerfect.mkcycle [1; 1; 1; 2; 2; 1; 2; 2] 0)).
    split; vm_compute; reflexivity.
  - intros k. destruct (Hgen 2 2 k) as (d & Hd & _ & Hk).
    destruct Hk as (dk & Hk); [discriminate|].
    exists d, dk. split; [exact Hd | exact Hk].
  - reflexivity.
  - exact Hgen.
  - intros sides n. apply msd_batches.
Qed.

(** ** [DieCombo] rejects no more than [DiePower] *)

Lemma power_rejected_count (sides b : Z) (n : nat) :
  0 <= b -> 0 <= sides <= b ^ Z.of_nat n ->
  Z.of_nat (length (power_rejected (DiePower.mk sides (Z.of_nat n)) b))
  = b ^ Z.of_nat n - sides.
Proof.
  intros Hb Hs. unfold power_rejected. cbn [DiePower.sides DiePower.num_dice].
  rewrite Nat2Z.id.
  pose proof (filter_length (fun rolls => DiePower.value b rolls >? sides) (batches b n))
    as Hsplit.
  rewrite batches_length in Hsplit by exact Hb.
  replace (filter (fun x => negb (DiePower.value b x >? sides)) (batches b n))
    with (filter (fun t => composite_lsd b t <? sides) (batches b n)) in Hsplit.
  - rewrite batches_below_lsd in Hsplit by assumption. lia.
  - apply filter_ext. intros t. rewrite DiePower_value_composite.
    destruct (Z.gtb_spec (1 + composite_lsd b t) sides),
             (Z.ltb_spec (composite_lsd b t) sides); simpl; try reflexivity; lia.
Qed.

Lemma combo_rejected_count (sides b divider : Z) (n : nat) :
  0 <= b -> 1 <= sides -> 1 <= divider -> sides * divider <= b ^ Z.of_nat n ->
  Z.of_nat (length (combo_rejected (DieCombo.mk sides (Z.of_nat n) divider) b))
  = b ^ Z.of_nat n - sides * divider.
Proof.
  intros Hb Hs Hd Hle. unfold combo_rejected.
  cbn [DieCombo.sides DieCombo.num_dice]. rewrite Nat2Z.id.
  set (c := DieCombo.mk sides (Z.of_nat n) divider).
  pose proof (filter_length
                (fun rolls => match DieCombo.value c b rolls with
                              | Ok v => v >? sides
                              | _ => false
                              end) (batches b n)) as Hsplit.
  rewrite batches_length in Hsplit by exact Hb.
  match type of Hsplit with
  | (_ + length (filter ?g _) = _)%nat =>
      replace (filter g (batches b n))
        with (filter (fun t => composite_msd b t <? sides * divider) (batches b n))
        in Hsplit
  end.
  - rewrite batches_below_msd in Hsplit by (assumption || nia). lia.
  - apply filter_ext_in. intros t Ht. apply batches_In in Ht. destruct Ht as [Hl _].
    rewrite DieCombo_value_composite by (simpl; lia).
    cbn [DieCombo.divider c].
    destruct (Z.ltb_spec (composite_msd b t) (sides * divider)) as [Hlt|Hge].
    + assert (composite_msd b t / divider < sides)
        by (apply Z.div_lt_upper_bound; lia).
      destruct (Z.gtb_spec (composite_msd b t / divider + 1) sides); [lia | reflexivity].
    + assert (sides <= composite_msd b t / divider)
        by (apply Z.div_le_lower_bound; lia).
      destruct (Z.gtb_spec (composite_msd b t / divider + 1) sides); [reflexivity | lia].
Qed.

(** C4, refuted as stated: for a target of 5 sides over a six-sided
    source both converters use one die and reject the single batch (6), so
    their rejected regions and their expected numbers of draws are equal,
    although [6 ^ 1 mod 5] is 1 and not 0. *)
Lemma equal_rejection_with_remainder :
  DiePower.init 2 5 (Die.as_die 6) = Ok (DiePower.mk 5 1) /\
  DieCombo.init 2 5 (Die.as_die 6) = Ok (DieCombo.mk 5 1 1) /\
  power_rejected (DiePower.mk 5 1) 6 = [[6]] /\
  combo_rejected (DieCombo.mk 5 1 1) 6 = [[6]] /\
  (expected_draws 1 (6 ^ 1) (6 ^ 1 mod 5) == expected_draws 1 (6 ^ 1) (6 ^ 1 - 5))%Q /\
  ~ (length (combo_rejected (DieCombo.mk 5 1 1) 6)
     = length (power_rejected (DiePower.mk 5 1) 6) -> 6 ^ 1 mod 5 = 0).
Proof.
  repeat split. intros H. specialize (H eq_refl). discriminate.
Qed.

(** C4, as the code has it: for a target of at least one side over a
    source of at least two, both converters use the same [num_dice]; of
    the [N = source.sides ^ num_dice] equally likely batches [DiePower]
    rejects [N - sides] and [DieCombo] rejects [N mod sides], which is
    never more; so the expected number of source draws per accepted roll
    of [DieCombo] is at most that of [DiePower].  The two are equal
    exactly when [divider = 1], that is when [N < 2 * sides]. *)
Theorem combo_rejects_no_more (sides : Z) {St : Type} (source : DieBase.t St)
        (fuelp fuelc : nat) (p : DiePower.t) (c : DieCombo.t) :
  1 <= sides -> 2 <= DieBase.sides source ->
  DiePower.init fuelp sides source = Ok p ->
  DieCombo.init fuelc sides source = Ok c ->
  DieCombo.num_dice c = DiePower.num_dice p /\
  Z.of_nat (length (power_rejected p (DieBase.sides source)))
  = DieBase.sides source ^ DiePower.num_dice p - sides /\
  Z.of_nat (length (combo_rejected c (DieBase.sides source)))
  = DieBase.sides source ^ DiePower.num_dice p mod sides /\
  DieBase.sides source ^ DiePower.num_dice p mod sides
  <= DieBase.sides source ^ DiePower.num_dice p - sides /\
  (DieCombo.divider c = 1 <-> DieBase.sides source ^ DiePower.num_dice p < 2 * sides) /\
  (DieBase.sides source ^ DiePower.num_dice p mod sides
   = DieBase.sides source ^ DiePower.num_dice p - sides <-> DieCombo.divider c = 1) /\
  (expected_draws (DiePower.num_dice p) (DieBase.sides source ^ DiePower.num_dice p)
                  (DieBase.sides source ^ DiePower.num_dice p mod sides)
   <= expected_draws (DiePower.num_dice p) (DieBase.sides source ^ DiePower.num_dice p)
                     (DieBase.sides source ^ DiePower.num_dice p - sides))%Q /\
  ((expected_draws (DiePower.num_dice p) (DieBase.sides source ^ DiePower.num_dice p)
                   (DieBase.sides source ^ DiePower.num_dice p mod sides)
    == expected_draws (DiePower.num_dice p) (DieBase.sides source ^ DiePower.num_dice p)
                      (DieBase.sides source ^ DiePower.num_dice p - sides))%Q
   <-> DieCombo.divider c = 1).
Proof.
  intros Hs Hb Hp Hc.
  apply DiePower_init_Ok in Hp. destruct Hp as (n & Hn & ->).
  apply DieCombo_init_Ok in Hc. destruct Hc as (n' & Hn' & _ & ->).
  cbn [DiePower.num_dice DieCombo.num_dice DieCombo.divider].
  pose proof (num_dice_loop_sound _ _ _ _ _ Hn) as (Hn0 & Hle & Hmin).
  pose proof (num_dice_loop_sound _ _ _ _ _ Hn') as (Hn0' & Hle' & Hmin').
  assert (n' = n).
  { destruct (Z.lt_trichotomy n' n) as [H|[H|H]]; [|exact H|].
    - specialize (Hmin n'). lia.
    - specialize (Hmin' n). lia. }
  subst n'. clear Hn' Hn0' Hle' Hmin'.
  set (b := DieBase.sides source) in *. set (N := b ^ n) in *.
  pose proof (Z.div_mod N sides ltac:(lia)) as Hdm.
  pose proof (Z.mod_pos_bound N sides ltac:(lia)) as Hmod.
  assert (Hd : 1 <= N / sides) by (apply Z.div_le_lower_bound; lia).
  assert (Hnat : n = Z.of_nat (Z.to_nat n)) by lia.
  assert (Hacc_p : N - (N - sides) = sides) by lia.
  assert (Hacc_c : N - N mod sides = sides * (N / sides)) by lia.
  assert (Hpos_p : 0 < N - (N - sides)) by lia.
  assert (Hpos_c : 0 < N - N mod sides) by nia.
  split; [reflexivity|]. split; [|split; [|split; [|split; [|split; [|split]]]]].
  - rewrite Hnat at 1. rewrite power_rejected_count; rewrite <- ?Hnat; fold N; lia.
  - rewrite Hnat at 1. rewrite combo_rejected_count; rewrite <- ?Hnat; fold N; nia.
  - nia.
  - split; intros H; nia.
  - split; intros H; nia.
  - unfold expected_draws, Qle. cbn [Qnum Qden].
    rewrite !Z2Pos.id by assumption. rewrite Hacc_p, Hacc_c.
    assert (0 <= n * N) by nia. nia.
  - unfold expected_draws, Qeq. cbn [Qnum Qden].
    rewrite !Z2Pos.id by assumption. rewrite Hacc_p, Hacc_c.
    split.
    + intros H.
      destruct (Z.eq_dec n 0) as [Hz|Hz].
      * subst N. rewrite Hz in *. simpl in Hle. assert (sides = 1) as -> by lia.
        reflexivity.
      * assert (0 < n * N) by nia. nia.
    + intros ->. ring.
Qed.

(** The repository's pair of tests [test_d45_from_2d10]: of the 100
    batches of two ten-sided dice [DiePower] rejects 55 and [DieCombo]
    only 10. *)
Lemma combo_rejects_no_more_witness :
  Z.of_nat (length (power_rejected (DiePower.mk 45 2) 10)) = 55 /\
  Z.of_nat (length (combo_rejected (DieCombo.mk 45 2 2) 10)) = 10 /\
  (expected_draws 2 100 10 <= expected_draws 2 100 55)%Q.
Proof.
  destruct (combo_rejects_no_more 45 (Die.as_die 10) 3 3
              (DiePower.mk 45 2) (DieCombo.mk 45 2 2))
    as (_ & Hp & Hc & _ & _ & _ & Hq & _);
    [lia | simpl; lia | reflexivity | reflexivity |].
  split; [exact Hp|]. split; [exact Hc | exact Hq].
Defined.

(** ** The repository's tests, run on the embedding *)

(** [TestDieDivider]: every face equally often. *)
Example test_d3_from_d6 : go_divider 6 3 6 = Ok (6, [2; 2; 2]).
Proof. vm_compute. reflexivity. Qed.

Example test_d4_from_d12 : go_divider 12 4 12 = Ok (12, [3; 3; 3; 3]).
Proof. vm_compute. reflexivity. Qed.

Example test_d6_from_d12 : go_divider 12 6 12 = Ok (12, [2; 2; 2; 2; 2; 2]).
Proof. vm_compute. reflexivity. Qed.

(** [TestDiePower]: the number of batches drawn is [expected_rolls], and
    every face was rolled equally often. *)
Example test_d16_from_2d6 : go_power 32 16 6 2 = Ok (68, repeat 2 16).
Proof. vm_compute. reflexivity. Qed.

Example test_d80_from_2d10 : go_power 160 80 10 2 = Ok (198, repeat 2 80).
Proof. vm_compute. reflexivity. Qed.

Example test_d12_from_2d6_power : go_power 144 12 6 2 = Ok (428, repeat 12 12).
Proof. vm_compute. reflexivity. Qed.

Example test_d45_from_2d10_power : go_power 180 45 10 2 = Ok (394, repeat 4 45).
Proof. vm_compute. reflexivity. Qed.

(** [TestDieCombo]: the same targets need far fewer batches. *)
Example test_d12_from_2d6_combo : go_combo 144 12 6 2 = Ok (144, repeat 12 12).
Proof. vm_compute. reflexivity. Qed.

Example test_d50_from_2d10_combo : go_combo 200 50 10 2 = Ok (200, repeat 4 50).
Proof. vm_compute. reflexivity. Qed.

Example test_d45_from_2d10_combo : go_combo 180 45 10 2 = Ok (190, repeat 4 45).
Proof. vm_compute. reflexivity. Qed.

(* ================================================================== *)
(** * Part 4: further properties of the code *)
(* ================================================================== *)

(** ** [DieBase.__call__] *)

Lemma rolls_app {St : Type} (roll : M St Z) (m n : nat) (st : St) :
  DieBase.rolls roll (m + n) st
  = (l1 <- DieBase.rolls roll m ;; l2 <- DieBase.rolls roll n ;; ret (l1 ++ l2)) st.
Proof.
  revert st. induction m as [|m IH]; intros st.
  - simpl. unfold bind, ret.
    destruct (DieBase.rolls roll n st) as [[l st']| |]; reflexivity.
  - cbn [Nat.add DieBase.rolls]. unfold bind at 1 3 4.
    destruct (roll st) as [[r st1]| |]; try reflexivity.
    unfold bind at 1. rewrite IH. unfold bind, ret.
    destruct (DieBase.rolls roll m st1) as [[l1 st2]| |]; try reflexivity.
    destruct (DieBase.rolls roll n st2) as [[l2 st3]| |]; reflexivity.
Qed.

(** Calling a die for [m + n] rolls is calling it for [m] rolls and then
    for [n] more, the results concatenated; a successful call returns
    exactly [count] values; a count of zero or less returns the empty
    list and does not roll at all. *)
Theorem call_splits {St : Type} (die : DieBase.t St) (m n : Z) (st : St) :
  0 <= m -> 0 <= n ->
  DieBase.call die (m + n) st
  = (l1 <- DieBase.call die m ;; l2 <- DieBase.call die n ;; ret (l1 ++ l2)) st /\
  (forall l st', DieBase.call die m st = Ok (l, st') -> Z.of_nat (length l) = m) /\
  (forall count, count <= 0 -> DieBase.call die count st = Ok ([], st)).
Proof.
  intros Hm Hn. split; [|split].
  - unfold DieBase.call. rewrite Z2Nat.inj_add by assumption. apply rolls_app.
  - intros l st' H. apply call_length in H. lia.
  - intros count Hc. unfold DieBase.call.
    replace (Z.to_nat count) with 0%nat by lia. reflexivity.
Qed.

Lemma call_splits_witness :
  DieBase.call (DiePerfect.as_die (enum_2d6 0)) (2 + 4) (enum_2d6 0)
  = Ok ([1; 1] ++ [1; 2; 1; 3], enum_2d6 6).
Proof.
  destruct (call_splits (DiePerfect.as_die (enum_2d6 0)) 2 4 (enum_2d6 0))
    as (Hsplit & _ & _); [lia | lia |].
  rewrite Hsplit. vm_compute. reflexivity.
Defined.

(** ** More on the enumeration die *)

Lemma concat_length_uniform {A : Type} (L : list (list A)) (n : nat) :
  (forall t, In t L -> length t = n) -> length (concat L) = (length L * n)%nat.
Proof.
  induction L as [|t L IH]; intros H; simpl; [reflexivity|].
  rewrite length_app, (H t) by (left; reflexivity).
  rewrite IH by (intros; apply H; right; assumption). reflexivity.
Qed.

Lemma nth_concat_uniform {A : Type} (L : list (list A)) (n j i : nat) (d : A) :
  (forall t, In t L -> length t = n) -> (i < n)%nat ->
  nth (j * n + i) (concat L) d = nth i (nth j L []) d.
Proof.
  revert j. induction L as [|t L IH]; intros j H Hi.
  - simpl. destruct j, i; simpl; try reflexivity; destruct (_ + _)%nat; reflexivity.
  - assert (Ht : length t = n) by (apply H; left; reflexivity).
    destruct j as [|j]; simpl.
    + apply app_nth1. lia.
    + rewrite app_nth2 by lia. rewrite Ht.
      replace (n + j * n + i - n)%nat with (j * n + i)%nat by lia.
      apply IH; [|exact Hi]. intros t' Ht'. apply H. right. exact Ht'.
Qed.

Lemma map_nth_seq (t : list Z) :
  map (fun i => nth i t 0) (seq 0 (length t)) = t.
Proof.
  induction t as [|x t IH]; simpl; [reflexivity|].
  f_equal. rewrite <- seq_shift, map_map. exact IH.
Qed.

Lemma concat_batches_length (b : Z) (n : nat) :
  0 <= b -> length (concat (batches b n)) = (Z.to_nat (b ^ Z.of_nat n) * n)%nat.
Proof.
  intros Hb. rewrite (concat_length_uniform _ n).
  - rewrite batches_length by exact Hb. reflexivity.
  - intros t Ht. apply batches_In in Ht. tauto.
Qed.

Lemma concat_batches_in_range (b : Z) (n : nat) :
  Forall (fun x => 1 <= x <= b) (concat (batches b n)).
Proof.
  apply Forall_forall. intros x Hx. apply in_concat in Hx.
  destruct Hx as (t & Ht & Hx). apply batches_In in Ht. destruct Ht as [_ Hall].
  rewrite Forall_forall in Hall. apply Hall. exact Hx.
Qed.

Lemma batches_head (b : Z) (n : nat) :
  1 <= b -> exists rest, batches b n = repeat 1 n :: rest.
Proof.
  intros Hb. induction n as [|n [rest IH]].
  - exists []. reflexivity.
  - rewrite batches_S, (range_app 1 2 (b + 1)) by lia.
    change (Py.range 1 2) with [1]. simpl flat_map. rewrite IH. simpl.
    eexists. reflexivity.
Qed.

Lemma pow_nat_pos (b : Z) (n : nat) : 1 <= b -> (0 < Z.to_nat (b ^ Z.of_nat n))%nat.
Proof.
  intros Hb. assert (0 < b ^ Z.of_nat n) by (apply Z.pow_pos_nonneg; lia). lia.
Qed.

(** A fresh enumeration die cannot be rolled when it has no sides or no
    dice: its cycle is empty and the first [roll] raises [StopIteration].
    With at least one side and one die the first roll returns 1. *)
Theorem DiePerfect_first_roll (sides num_dice : Z) :
  exists d,
    DiePerfect.init sides num_dice = Ok d /\
    (sides <= 0 \/ num_dice <= 0 -> DiePerfect.roll d = Raise StopIteration) /\
    (1 <= sides -> 1 <= num_dice -> exists d', DiePerfect.roll d = Ok (1, d')).
Proof.
  eexists. split; [apply DiePerfect_init_batches|]. split.
  - intros H. unfold DiePerfect.roll, DiePerfect.next.
    cbn [DiePerfect.rolls DiePerfect.saved].
    assert (Hempty : concat (batches sides (Z.to_nat num_dice)) = []).
    { destruct (Z.to_nat num_dice) as [|n] eqn:En; [reflexivity|].
      destruct H as [H|H]; [|lia].
      rewrite batches_S. unfold Py.range at 1.
      replace (Z.to_nat (sides + 1 - 1)) with 0%nat by lia. reflexivity. }
    rewrite Hempty. reflexivity.
  - intros Hs Hn. unfold DiePerfect.roll, DiePerfect.next.
    cbn [DiePerfect.rolls DiePerfect.saved DiePerfect.pos].
    destruct (batches_head sides (Z.to_nat num_dice) Hs) as [rest ->].
    destruct (Z.to_nat num_dice) as [|n] eqn:En; [lia|].
    simpl. eexists. reflexivity.
Qed.

(** An enumeration die with at least one side and one die keeps the
    contract of a die for ever: any number [k] of rolls of a fresh die
    succeeds, every value lies between 1 and [sides], and [num_rolls]
    has counted exactly [k] rolls. *)
Theorem DiePerfect_keeps_contract (sides num_dice : Z) (k : nat) :
  1 <= sides -> 1 <= num_dice ->
  exists d l d',
    DiePerfect.init sides num_dice = Ok d /\
    DieBase.call (DiePerfect.as_die d) (Z.of_nat k) d = Ok (l, d') /\
    length l = k /\
    Forall (fun r => 1 <= r <= sides) l /\
    DiePerfect.num_rolls d' = Z.of_nat k /\
    DiePerfect.sides d' = sides /\ DiePerfect.num_dice d' = num_dice.
Proof.
  intros Hs Hn.
  set (items := concat (batches sides (Z.to_nat num_dice))).
  assert (Hlen : (0 < length items)%nat).
  { unfold items. rewrite concat_batches_length by lia.
    pose proof (pow_nat_pos sides (Z.to_nat num_dice) Hs). nia. }
  assert (Hrolls := DiePerfect_rolls k sides num_dice 0 items 0).
  eexists. eexists. eexists. split; [apply DiePerfect_init_batches|].
  unfold DieBase.call. rewrite Nat2Z.id. cbn [DiePerfect.as_die DieBase.roll].
  fold items. split.
  - apply Hrolls; [|exact Hlen]. intros E. rewrite E in Hlen. simpl in Hlen. lia.
  - split; [rewrite length_map, length_seq; reflexivity|].
    split; [|split; [simpl; lia | split; reflexivity]].
    apply Forall_forall. intros x Hx. apply in_map_iff in Hx.
    destruct Hx as (i & <- & _).
    pose proof (concat_batches_in_range sides (Z.to_nat num_dice)) as Hall.
    fold items in Hall. rewrite Forall_forall in Hall. apply Hall.
    apply nth_In. apply Nat.mod_upper_bound. lia.
Qed.

Lemma DiePerfect_keeps_contract_witness :
  exists d l d',
    DiePerfect.init 4 2 = Ok d /\
    DieBase.call (DiePerfect.as_die d) 40 d = Ok (l, d') /\
    length l = 40%nat /\ Forall (fun r => 1 <= r <= 4) l /\
    DiePerfect.num_rolls d' = 40.
Proof.
  destruct (DiePerfect_keeps_contract 4 2 40) as (d & l & d' & H1 & H2 & H3 & H4 & H5 & _);
    [lia | lia |].
  exists d, l, d'. auto.
Defined.

(** [num_dice] rolls from the start of a tuple. *)
Lemma enum_at_rolls (sides : Z) (n : nat) (r : Z) (j : nat) :
  1 <= sides -> (1 <= n)%nat -> (j < Z.to_nat (sides ^ Z.of_nat n))%nat ->
  DiePerfect.init sides (Z.of_nat n) = Ok (enum_at sides n 0 0) /\
  DieBase.call (DiePerfect.as_die (enum_at sides n 0 0)) (Z.of_nat n)
               (enum_at sides n r j)
  = Ok (nth j (batches sides n) [],
        enum_at sides n (r + Z.of_nat n) (S j mod Z.to_nat (sides ^ Z.of_nat n))) /\
  In (nth j (batches sides n) []) (batches sides n).
Proof.
  intros Hs Hn Hj.
  set (N := Z.to_nat (sides ^ Z.of_nat n)) in *.
  assert (Hlen : length (concat (batches sides n)) = (N * n)%nat)
    by (apply concat_batches_length; lia).
  assert (Hbl : length (batches sides n) = N) by (apply batches_length; lia).
  split; [|split].
  - rewrite DiePerfect_init_batches, Nat2Z.id. reflexivity.
  - unfold DieBase.call. rewrite Nat2Z.id. cbn [DiePerfect.as_die DieBase.roll].
    unfold enum_at. rewrite DiePerfect_rolls.
    + rewrite Hlen. f_equal. f_equal.
      * transitivity (map (fun i => nth i (nth j (batches sides n) []) 0)
                          (seq 0 (length (nth j (batches sides n) [])))).
        -- assert (Hl : length (nth j (batches sides n) []) = n).
           { assert (Hin : In (nth j (batches sides n) []) (batches sides n))
               by (apply nth_In; lia).
             apply batches_In in Hin. tauto. }
           rewrite Hl.
           apply map_ext_in. intros i Hi. apply in_seq in Hi.
           rewrite Nat.mod_small by nia.
           apply nth_concat_uniform; [|lia].
           intros t Ht. apply batches_In in Ht. tauto.
        -- apply map_nth_seq.
      * f_equal. f_equal.
        replace (j * n + n)%nat with (S j * n)%nat by lia.
        apply Nat.Div0.mul_mod_distr_r.
    + intros E. rewrite E in Hlen. simpl in Hlen. nia.
    + rewrite Hlen. nia.
  - apply nth_In. lia.
Qed.

(** The rolls come tuple by tuple: an enumeration die that stands at the
    start of tuple number [j] returns, in [num_dice] rolls, exactly the
    tuple number [j] of the lexicographic product, and then stands at the
    start of the next tuple, the first one again after the last.  A fresh
    die stands at tuple 0. *)
Theorem DiePerfect_rolls_tuple (sides : Z) (n : nat) (r : Z) (j : nat) :
  1 <= sides -> (1 <= n)%nat -> (j < Z.to_nat (sides ^ Z.of_nat n))%nat ->
  DiePerfect.init sides (Z.of_nat n) = Ok (enum_at sides n 0 0) /\
  DieBase.call (DiePerfect.as_die (enum_at sides n 0 0)) (Z.of_nat n)
               (enum_at sides n r j)
  = Ok (nth j (batches sides n) [],
        enum_at sides n (r + Z.of_nat n) (S j mod Z.to_nat (sides ^ Z.of_nat n))) /\
  In (nth j (batches sides n) []) (batches sides n).
Proof. apply enum_at_rolls. Qed.

Lemma DiePerfect_rolls_tuple_witness :
  DieBase.call (DiePerfect.as_die (enum_at 6 2 0 0)) 2 (enum_at 6 2 70 35)
  = Ok ([6; 6], enum_at 6 2 72 0).
Proof.
  destruct (DiePerfect_rolls_tuple 6 2 70 35) as (_ & H & _);
    [lia | lia | vm_compute; lia |].
  exact H.
Defined.

(** ** Rejection loops over the enumeration die *)

Lemma rolls_ext {St : Type} (f g : M St Z) (k : nat) (st : St) :
  (forall s, f s = g s) -> DieBase.rolls f k st = DieBase.rolls g k st.
Proof.
  intros H. revert st. induction k as [|k IH]; intros st; simpl; [reflexivity|].
  unfold bind. rewrite H. destruct (g st) as [[r st1]| |]; try reflexivity.
  rewrite IH. reflexivity.
Qed.

Lemma composite_lsd_ones (b : Z) (n : nat) : composite_lsd b (repeat 1 n) = 0.
Proof. induction n as [|n IH]; simpl; [reflexivity | rewrite IH; lia]. Qed.

Lemma composite_msd_ones (b : Z) (n : nat) : composite_msd b (repeat 1 n) = 0.
Proof. induction n as [|n IH]; simpl; [reflexivity | rewrite IH; lia]. Qed.

Section LoopOverEnum.

Variables (s : Z) (n : nat) (val : list Z -> res Z) (target : Z).

Hypothesis s_pos : 1 <= s.
Hypothesis n_pos : (1 <= n)%nat.
Hypothesis val_total : forall t, In t (batches s n) -> exists v, val t = Ok v /\ 1 <= v.
Hypothesis val_first : exists v0, val (repeat 1 n) = Ok v0 /\ v0 <= target.

Let N : nat := Z.to_nat (s ^ Z.of_nat n).
Let draw : M DiePerfect.t (list Z) :=
  DieBase.call (DiePerfect.as_die (enum_at s n 0 0)) (Z.of_nat n).

Lemma enum_draw (r : Z) (j : nat) :
  (j < N)%nat ->
  draw (enum_at s n r j)
  = Ok (nth j (batches s n) [], enum_at s n (r + Z.of_nat n) (S j mod N)) /\
  In (nth j (batches s n) []) (batches s n).
Proof.
  intros Hj. destruct (enum_at_rolls s n r j s_pos n_pos Hj) as (_ & H1 & H2).
  split; assumption.
Qed.

Lemma enum_loop_first (r : Z) (fuel : nat) :
  exists v,
    rejection_loop draw val target (S fuel) (enum_at s n r 0)
    = Ok (v, enum_at s n (r + Z.of_nat n) (1 mod N)) /\ 1 <= v <= target.
Proof.
  assert (HN : (0 < N)%nat) by (apply pow_nat_pos; exact s_pos).
  destruct (enum_draw r 0 HN) as [Hd Hin].
  destruct (batches_head s n s_pos) as [rest Hhead].
  rewrite Hhead in Hd, Hin. simpl nth in Hd, Hin. rewrite <- Hhead in Hin.
  destruct val_first as (v0 & Hv0 & Hle).
  destruct (val_total _ Hin) as (v & Hv & Hge).
  rewrite Hv0 in Hv. inversion Hv; subst v.
  exists v0. split; [|lia].
  simpl. unfold bind, lift. rewrite Hd, Hv0.
  destruct (Z.gtb_spec v0 target); [lia | reflexivity].
Qed.

(** From the start of tuple [j] the loop returns after at most
    [N - j + 1] attempts: at the latest, the tuple of ones is accepted. *)
Lemma enum_loop_terminates (k : nat) :
  forall (j : nat) (r : Z) (fuel : nat),
    (j < N)%nat -> (N - 1 - j = k)%nat -> (N - j < fuel)%nat ->
    exists v a j',
      rejection_loop draw val target fuel (enum_at s n r j)
      = Ok (v, enum_at s n (r + Z.of_nat n * Z.of_nat a) j') /\
      (1 <= a <= N - j + 1)%nat /\ (j' < N)%nat /\ 1 <= v <= target.
Proof.
  induction k as [|k IH]; intros j r fuel Hj Hk Hfuel;
    (destruct fuel as [|fuel]; [lia|]);
    destruct (enum_draw r j Hj) as [Hd Hin];
    destruct (val_total _ Hin) as (v & Hv & Hge);
    simpl; unfold bind, lift; rewrite Hd, Hv;
    destruct (Z.gtb_spec v target) as [Hgt|Hle].
  - (* last tuple rejected: the cycle restarts *)
    replace (S j mod N)%nat with 0%nat
      by (replace (S j) with N by lia; symmetry; apply Nat.Div0.mod_same).
    destruct fuel as [|fuel]; [lia|].
    destruct (enum_loop_first (r + Z.of_nat n) fuel) as (v1 & Hloop & Hv1).
    exists v1, 2%nat, (1 mod N)%nat. rewrite Hloop. split; [do 3 f_equal; lia|].
    split; [lia|]. split; [apply Nat.mod_upper_bound; lia | exact Hv1].
  - exists v, 1%nat, (S j mod N)%nat. split; [unfold ret; do 3 f_equal; lia|].
    split; [lia|]. split; [apply Nat.mod_upper_bound; lia | lia].
  - rewrite Nat.mod_small by lia.
    destruct (IH (S j) (r + Z.of_nat n) fuel) as (v1 & a & j' & Hloop & Ha & Hj' & Hv1);
      try lia.
    exists v1, (S a), j'. rewrite Hloop. split; [do 3 f_equal; lia|].
    split; [lia|]. split; assumption.
  - exists v, 1%nat, (S j mod N)%nat. split; [unfold ret; do 3 f_equal; lia|].
    split; [lia|]. split; [apply Nat.mod_upper_bound; lia | lia].
Qed.

(** Any number of rolls in a row succeeds when every roll may make
    [N + 1] attempts. *)
Lemma enum_loop_rolls (k : nat) :
  forall (j : nat) (r : Z),
    (j < N)%nat ->
    exists l a j',
      DieBase.rolls (rejection_loop draw val target (S N)) k (enum_at s n r j)
      = Ok (l, enum_at s n (r + Z.of_nat n * Z.of_nat a) j') /\
      length l = k /\ Forall (fun v => 1 <= v <= target) l /\
      (k <= a <= k * (N + 1))%nat /\ (j' < N)%nat.
Proof.
  induction k as [|k IH]; intros j r Hj.
  - exists [], 0%nat, j. simpl. unfold ret. split; [do 3 f_equal; lia|].
    split; [reflexivity|]. split; [constructor|]. split; [lia | exact Hj].
  - destruct (enum_loop_terminates (N - 1 - j) j r (S N) Hj eq_refl ltac:(lia))
      as (v & a & j1 & Hloop & Ha & Hj1 & Hv).
    destruct (IH j1 (r + Z.of_nat n * Z.of_nat a) Hj1)
      as (l & a' & j2 & Hrolls & Hl & Hall & Ha' & Hj2).
    exists (v :: l), (a + a')%nat, j2.
    cbn [DieBase.rolls]. unfold bind at 1. rewrite Hloop.
    unfold bind. rewrite Hrolls. unfold ret.
    split; [do 3 f_equal; lia|]. split; [simpl; lia|].
    split; [constructor; assumption|]. split; [nia | exact Hj2].
Qed.

End LoopOverEnum.

(** A [DiePower] over the enumeration of its own [num_dice] source dice
    never hangs: when each roll may make [N + 1] attempts, with
    [N = source.sides ^ num_dice], any number [k] of rolls succeeds, every
    value lies between 1 and [sides], and the source has been rolled
    [num_dice * a] times for a number [a] of attempts between [k] and
    [k * (N + 1)], so that [source.num_rolls // source.num_dice] is the
    number of batches drawn. *)
Theorem DiePower_rolls_over_enum (sides s : Z) (n k : nat) :
  1 <= sides -> 1 <= s -> (1 <= n)%nat ->
  exists l a j',
    DieBase.call (DiePower.as_die (S (Z.to_nat (s ^ Z.of_nat n)))
                                  (DiePower.mk sides (Z.of_nat n))
                                  (DiePerfect.as_die (enum_at s n 0 0)))
                 (Z.of_nat k) (enum_at s n 0 0)
    = Ok (l, enum_at s n (Z.of_nat n * Z.of_nat a) j') /\
    length l = k /\ Forall (fun v => 1 <= v <= sides) l /\
    (k <= a <= k * (Z.to_nat (s ^ Z.of_nat n) + 1))%nat.
Proof.
  intros Hsides Hs Hn.
  destruct (enum_loop_rolls s n (fun rolls => Ok (DiePower.value s rolls)) sides Hs Hn)
    with (k := k) (j := 0%nat) (r := 0)
    as (l & a & j' & Hrolls & Hl & Hall & Ha & _).
  - intros t Ht. eexists. split; [reflexivity|].
    rewrite DiePower_value_composite. apply batches_In in Ht. destruct Ht as [_ Hf].
    pose proof (composite_lsd_nonneg _ _ Hf). lia.
  - eexists. split; [reflexivity|].
    rewrite DiePower_value_composite, composite_lsd_ones. lia.
  - apply pow_nat_pos. exact Hs.
  - exists l, a, j'. split; [|auto].
    unfold DieBase.call. rewrite Nat2Z.id. cbn [DiePower.as_die DieBase.roll].
    rewrite Z.add_0_l in Hrolls. rewrite <- Hrolls. apply rolls_ext. intros st.
    rewrite DiePower_roll_loop. reflexivity.
Qed.

(** The repository's [test_d16_from_2d6]: 32 rolls need 68 batches. *)
Lemma DiePower_rolls_over_enum_witness :
  exists l a j',
    DieBase.call (DiePower.as_die 37 (DiePower.mk 16 2)
                                  (DiePerfect.as_die (enum_at 6 2 0 0)))
                 32 (enum_at 6 2 0 0)
    = Ok (l, enum_at 6 2 (2 * Z.of_nat a) j') /\
    length l = 32%nat /\ Forall (fun v => 1 <= v <= 16) l /\
    (32 <= a <= 32 * 37)%nat.
Proof.
  destruct (DiePower_rolls_over_enum 16 6 2 32) as (l & a & j' & H1 & H2 & H3 & H4);
    [lia | lia | lia |].
  exists l, a, j'. split; [exact H1|]. split; [exact H2|]. split; [exact H3 | exact H4].
Defined.

(** The same for a [DieCombo] with a positive [divider]. *)
Theorem DieCombo_rolls_over_enum (sides divider s : Z) (n k : nat) :
  1 <= sides -> 1 <= divider -> 1 <= s -> (1 <= n)%nat ->
  exists l a j',
    DieBase.call (DieCombo.as_die (S (Z.to_nat (s ^ Z.of_nat n)))
                                  (DieCombo.mk sides (Z.of_nat n) divider)
                                  (DiePerfect.as_die (enum_at s n 0 0)))
                 (Z.of_nat k) (enum_at s n 0 0)
    = Ok (l, enum_at s n (Z.of_nat n * Z.of_nat a) j') /\
    length l = k /\ Forall (fun v => 1 <= v <= sides) l /\
    (k <= a <= k * (Z.to_nat (s ^ Z.of_nat n) + 1))%nat.
Proof.
  intros Hsides Hd Hs Hn.
  set (c := DieCombo.mk sides (Z.of_nat n) divider).
  assert (Hval : forall t, length t = n ->
             DieCombo.value c s t = Ok (composite_msd s t / divider + 1)).
  { intros t Hl. apply DieCombo_value_composite; simpl; lia. }
  destruct (enum_loop_rolls s n (DieCombo.value c s) sides Hs Hn)
    with (k := k) (j := 0%nat) (r := 0)
    as (l & a & j' & Hrolls & Hl & Hall & Ha & _).
  - intros t Ht. apply batches_In in Ht. destruct Ht as [Hlen Hf].
    eexists. split; [apply Hval; exact Hlen|].
    pose proof (composite_msd_nonneg _ _ Hf).
    assert (0 <= composite_msd s t / divider) by (apply Z.div_pos; lia). lia.
  - eexists. split; [apply Hval; apply repeat_length|].
    rewrite composite_msd_ones. rewrite Z.div_0_l by lia. lia.
  - apply pow_nat_pos. exact Hs.
  - exists l, a, j'. split; [|auto].
    unfold DieBase.call. rewrite Nat2Z.id. cbn [DieCombo.as_die DieBase.roll].
    rewrite Z.add_0_l in Hrolls. rewrite <- Hrolls. apply rolls_ext. intros st.
    rewrite DieCombo_roll_loop. reflexivity.
Qed.

(** The repository's [test_d45_from_2d10] for [DieCombo]. *)
Lemma DieCombo_rolls_over_enum_witness :
  exists l a j',
    DieBase.call (DieCombo.as_die 101 (DieCombo.mk 45 2 2)
                                  (DiePerfect.as_die (enum_at 10 2 0 0)))
                 180 (enum_at 10 2 0 0)
    = Ok (l, enum_at 10 2 (2 * Z.of_nat a) j') /\
    length l = 180%nat /\ Forall (fun v => 1 <= v <= 45) l /\
    (180 <= a <= 180 * 101)%nat.
Proof.
  destruct (DieCombo_rolls_over_enum 45 2 10 2 180) as (l & a & j' & H1 & H2 & H3 & H4);
    [lia | lia | lia | lia |].
  exists l, a, j'. split; [exact H1|]. split; [exact H2|]. split; [exact H3 | exact H4].
Defined.

(** ** Every face is equally likely *)

Lemma filter_between_length {A : Type} (g : A -> Z) (lo hi : Z) (l : list A) :
  lo <= hi ->
  Nat.add (length (filter (fun t => (lo <=? g t) && (g t <? hi)) l))
          (length (filter (fun t => g t <? lo) l))
  = length (filter (fun t => g t <? hi) l).
Proof.
  intros H. induction l as [|x l IH]; simpl; [reflexivity|].
  destruct (Z.leb_spec lo (g x)), (Z.ltb_spec (g x) hi), (Z.ltb_spec (g x) lo);
    simpl; lia.
Qed.

(** Of all the batches of [n] draws, exactly one gives a [DiePower] with
    [sides <= source.sides ^ n] the face [f], for every face from 1 to
    [sides]: fed with equally likely batches the die is exactly uniform. *)
Theorem DiePower_one_batch_per_face (sides b : Z) (n : nat) (f : Z) :
  0 <= b -> sides <= b ^ Z.of_nat n -> 1 <= f <= sides ->
  length (filter (fun rolls => DiePower.value b rolls =? f) (batches b n)) = 1%nat.
Proof.
  intros Hb Hs Hf.
  pose proof (filter_between_length (composite_lsd b) (f - 1) f (batches b n) ltac:(lia))
    as Hsplit.
  rewrite !batches_below_lsd in Hsplit by (assumption || lia).
  replace (filter (fun rolls => DiePower.value b rolls =? f) (batches b n))
    with (filter (fun t => (f - 1 <=? composite_lsd b t) && (composite_lsd b t <? f))
                 (batches b n)); [lia|].
  apply filter_ext. intros t. rewrite DiePower_value_composite.
  destruct (Z.leb_spec (f - 1) (composite_lsd b t)), (Z.ltb_spec (composite_lsd b t) f),
           (Z.eqb_spec (1 + composite_lsd b t) f); simpl; try reflexivity; lia.
Qed.

Lemma DiePower_one_batch_per_face_witness :
  filter (fun rolls => DiePower.value 6 rolls =? 9) (batches 6 2) = [[3; 2]] /\
  length (filter (fun rolls => DiePower.value 6 rolls =? 9) (batches 6 2)) = 1%nat.
Proof.
  split; [reflexivity|].
  apply (DiePower_one_batch_per_face 16 6 2 9); [lia | simpl; lia | lia].
Defined.

(** A [DieCombo] maps exactly [divider] batches to each face. *)
Theorem DieCombo_divider_batches_per_face (sides divider b : Z) (n : nat) (f : Z) :
  0 <= b -> 1 <= divider -> sides * divider <= b ^ Z.of_nat n -> 1 <= f <= sides ->
  length (filter (fun rolls =>
                    match DieCombo.value (DieCombo.mk sides (Z.of_nat n) divider) b rolls with
                    | Ok v => v =? f
                    | _ => false
                    end) (batches b n))
  = Z.to_nat divider.
Proof.
  intros Hb Hd Hs Hf.
  pose proof (filter_between_length (composite_msd b) ((f - 1) * divider) (f * divider)
                                    (batches b n) ltac:(nia)) as Hsplit.
  rewrite !batches_below_msd in Hsplit by (assumption || nia).
  match goal with
  | |- length (filter ?g _) = _ =>
      replace (filter g (batches b n))
        with (filter (fun t => ((f - 1) * divider <=? composite_msd b t)
                               && (composite_msd b t <? f * divider)) (batches b n))
  end; [nia|].
  apply filter_ext_in. intros t Ht. apply batches_In in Ht. destruct Ht as [Hl _].
  rewrite DieCombo_value_composite by (simpl; lia). cbn [DieCombo.divider].
  destruct (Z.leb_spec ((f - 1) * divider) (composite_msd b t)) as [Hlo|Hlo];
    destruct (Z.ltb_spec (composite_msd b t) (f * divider)) as [Hhi|Hhi]; simpl.
  - assert (composite_msd b t / divider = f - 1).
    { symmetry. apply Z.div_unique with (r := composite_msd b t - (f - 1) * divider); lia. }
    destruct (Z.eqb_spec (composite_msd b t / divider + 1) f); [reflexivity | lia].
  - assert (f <= composite_msd b t / divider) by (apply Z.div_le_lower_bound; lia).
    destruct (Z.eqb_spec (composite_msd b t / divider + 1) f); [lia | reflexivity].
  - assert (composite_msd b t / divider < f - 1) by (apply Z.div_lt_upper_bound; lia).
    destruct (Z.eqb_spec (composite_msd b t / divider + 1) f); [lia | reflexivity].
  - nia.
Qed.

Lemma DieCombo_divider_batches_per_face_witness :
  filter (fun rolls => match DieCombo.value (DieCombo.mk 16 2 2) 6 rolls with
                       | Ok v => v =? 9
                       | _ => false
                       end) (batches 6 2) = [[3; 5]; [3; 6]] /\
  length (filter (fun rolls => match DieCombo.value (DieCombo.mk 16 2 2) 6 rolls with
                               | Ok v => v =? 9
                               | _ => false
                               end) (batches 6 2)) = 2%nat.
Proof.
  split; [reflexivity|].
  apply (DieCombo_divider_batches_per_face 16 2 6 2 9); [lia | lia | simpl; lia | lia].
Defined.

(** ** Values of a batch *)

(** A batch of [n] draws from 1 to [b] has a [DiePower] value between 1
    and [b ^ n], and a raw [DieCombo] composite between 0 and [b ^ n - 1]. *)
Theorem batch_value_range (b : Z) (c : DieCombo.t) (rolls : list Z) :
  1 <= b ->
  Z.of_nat (length rolls) = DieCombo.num_dice c ->
  Forall (fun d => 1 <= d <= b) rolls ->
  1 <= DiePower.value b rolls <= b ^ DieCombo.num_dice c /\
  0 <= DieCombo.raw c b rolls <= b ^ DieCombo.num_dice c - 1.
Proof.
  intros Hb Hlen Hall.
  assert (Hin : In rolls (batches b (length rolls))) by (apply batches_In; auto).
  assert (Hrev : In (rev rolls) (batches b (length rolls))).
  { apply batches_In. split; [apply length_rev | apply Forall_rev; exact Hall]. }
  assert (Hm : forall t, In t (batches b (length rolls)) ->
                         0 <= composite_msd b t < b ^ Z.of_nat (length rolls)).
  { intros t Ht. apply (in_map (composite_msd b)) in Ht.
    rewrite msd_batches in Ht by lia. apply range_In in Ht. lia. }
  rewrite DiePower_value_composite, DieCombo_raw_composite by exact Hlen.
  rewrite <- Hlen.
  pose proof (Hm _ Hin). pose proof (Hm _ Hrev) as Hr.
  rewrite <- composite_lsd_rev, rev_involutive in Hr. lia.
Qed.

Lemma batch_value_range_witness :
  1 <= DiePower.value 6 [6; 6] <= 6 ^ 2 /\
  0 <= DieCombo.raw (DieCombo.mk 16 2 2) 6 [6; 6] <= 6 ^ 2 - 1.
Proof.
  apply (batch_value_range 6 (DieCombo.mk 16 2 2) [6; 6]);
    [lia | reflexivity | repeat constructor; lia].
Defined.

(** The two converters read the same batch in opposite digit orders: the
    raw composite of [DieCombo] is the [DiePower] value of the reversed
    batch, less one. *)
Theorem digit_orders_mirror (b : Z) (c : DieCombo.t) (rolls : list Z) :
  Z.of_nat (length rolls) = DieCombo.num_dice c ->
  DieCombo.raw c b rolls = DiePower.value b (rev rolls) - 1.
Proof.
  intros Hlen. rewrite DieCombo_raw_composite by exact Hlen.
  rewrite DiePower_value_composite, composite_lsd_rev. lia.
Qed.

Lemma digit_orders_mirror_witness :
  DieCombo.raw (DieCombo.mk 200 3 1) 6 [2; 5; 3] = DiePower.value 6 [3; 5; 2] - 1.
Proof. apply (digit_orders_mirror 6 (DieCombo.mk 200 3 1) [2; 5; 3]). reflexivity. Defined.

(** ** Invariants of a constructed [DieCombo] *)

(** For a target of at least one side a constructed [DieCombo] has
    [divider >= 1] and
    [divider * sides <= source.sides ^ num_dice < (divider + 1) * sides];
    [num_dice] is minimal: one die less would not reach [sides]. *)
Theorem DieCombo_init_invariant (sides : Z) {St : Type} (source : DieBase.t St)
        (fuel : nat) (c : DieCombo.t) :
  1 <= sides ->
  DieCombo.init fuel sides source = Ok c ->
  0 <= DieCombo.num_dice c /\
  1 <= DieCombo.divider c /\
  DieCombo.divider c * sides <= DieBase.sides source ^ DieCombo.num_dice c
  < (DieCombo.divider c + 1) * sides /\
  (0 < DieCombo.num_dice c ->
   DieBase.sides source ^ (DieCombo.num_dice c - 1) < sides).
Proof.
  intros Hs Hc. apply DieCombo_init_Ok in Hc. destruct Hc as (n & Hn & _ & ->).
  apply num_dice_loop_sound in Hn. destruct Hn as (Hn0 & Hle & Hmin).
  cbn [DieCombo.num_dice DieCombo.divider].
  pose proof (Z.div_mod (DieBase.sides source ^ n) sides ltac:(lia)).
  pose proof (Z.mod_pos_bound (DieBase.sides source ^ n) sides ltac:(lia)).
  assert (1 <= DieBase.sides source ^ n / sides) by (apply Z.div_le_lower_bound; lia).
  split; [lia|]. split; [lia|]. split; [nia|].
  intros Hpos. apply Hmin. lia.
Qed.

Lemma DieCombo_init_invariant_witness :
  1 <= 2 /\ 2 * 45 <= 10 ^ 2 < (2 + 1) * 45 /\ 10 ^ (2 - 1) < 45.
Proof.
  destruct (DieCombo_init_invariant 45 (Die.as_die 10) 3 (DieCombo.mk 45 2 2))
    as (_ & H1 & H2 & H3); [lia | reflexivity |].
  split; [exact H1|]. split; [exact H2 | apply H3; simpl; lia].
Defined.

(** ** Dice without sides *)

(** A [DiePower] or [DieCombo] constructed for zero or fewer sides cannot
    be rolled: it draws nothing, computes the value 1, finds it above
    [sides] and starts over, for ever. *)
Theorem nonpositive_sides_roll_for_ever (sides : Z) {St : Type} (source : DieBase.t St)
        (fuel0 fuel : nat) (st : St) :
  sides <= 0 ->
  (forall p, DiePower.init fuel0 sides source = Ok p ->
             DiePower.roll fuel p source st = OutOfFuel) /\
  (forall c, DieCombo.init fuel0 sides source = Ok c ->
             DieCombo.roll fuel c source st = OutOfFuel).
Proof.
  intros Hs. split.
  - intros p Hp. apply DiePower_init_Ok in Hp. destruct Hp as (n & Hn & ->).
    apply num_dice_loop_sound in Hn. destruct Hn as (Hn0 & _ & Hmin).
    assert (n = 0) as ->.
    { destruct (Z.eq_dec n 0); [assumption|]. specialize (Hmin 0). simpl in Hmin. lia. }
    induction fuel as [|fuel IH]; [reflexivity|].
    simpl. unfold bind. simpl.
    destruct (Z.gtb_spec (DiePower.value (DieBase.sides source) []) sides) as [_|Hle];
      [exact IH|].
    unfold DiePower.value in Hle. simpl in Hle. lia.
  - intros c Hc.
    destruct (DieCombo_divider _ _ _ _ Hc) as (_ & Hsides & _ & _ & Hneg).
    assert (Hlt : sides < 0).
    { apply DieCombo_init_Ok in Hc. destruct Hc as (? & _ & ? & _). lia. }
    destruct (Hneg Hlt) as [Hn Hd]. destruct c as [cs cn cd]. simpl in *. subst.
    induction fuel as [|fuel IH]; [reflexivity|].
    simpl. unfold bind. simpl.
    destruct (Z.gtb_spec 1 sides); [exact IH | lia].
Qed.

Lemma nonpositive_sides_roll_for_ever_witness :
  DiePower.init 1 0 (Die.as_die 6) = Ok (DiePower.mk 0 0) /\
  DiePower.roll 500 (DiePower.mk 0 0) (Die.as_die 6) sample_rng = OutOfFuel /\
  DieCombo.roll 500 (DieCombo.mk (-3) 0 (-1)) (Die.as_die 6) sample_rng = OutOfFuel.
Proof.
  destruct (nonpositive_sides_roll_for_ever 0 (Die.as_die 6) 1 500 sample_rng) as [Hp _];
    [lia|].
  destruct (nonpositive_sides_roll_for_ever (-3) (Die.as_die 6) 1 500 sample_rng) as [_ Hc];
    [lia|].
  split; [reflexivity|]. split; [apply Hp; reflexivity | apply Hc; reflexivity].
Defined.

(** ** A [DieDivider] is a die again *)

(** Below [2 ^ 53] a constructed [DieDivider] keeps the contract of a die
    when its source does: the value it returns for a source draw [r] lies
    between 1 and [sides], and it is the number [v] of the block of
    [divisor] consecutive source values that holds [r]. *)
Theorem DieDivider_keeps_contract {St : Type} (source : DieBase.t St)
        (self : DieDivider.t) (st : St) (r : Z) (st' : St) :
  1 <= DieDivider.sides self ->
  DieBase.sides source mod DieDivider.sides self = 0 ->
  DieBase.sides source <= 2 ^ 53 ->
  DieBase.roll source st = Ok (r, st') ->
  1 <= r <= DieBase.sides source ->
  exists v,
    DieDivider.roll self source st = Ok (v, st') /\
    1 <= v <= DieDivider.sides self /\
    (v - 1) * (DieBase.sides source / DieDivider.sides self) < r
    <= v * (DieBase.sides source / DieDivider.sides self).
Proof.
  intros Hs Hmod Hbig Hroll Hr.
  eexists. split; [apply DieDivider_roll_ceil; eassumption|].
  pose proof (Z.div_exact (DieBase.sides source) (DieDivider.sides self) ltac:(lia))
    as [_ Hex].
  specialize (Hex Hmod).
  set (d := DieBase.sides source / DieDivider.sides self) in *.
  assert (Hd : 1 <= d) by nia.
  pose proof (ceil_div_spec r d ltac:(lia)) as Hspec.
  split; [nia | exact Hspec].
Qed.

Lemma DieDivider_keeps_contract_witness :
  exists v,
    DieDivider.roll (DieDivider.mk 3) (Die.as_die 6) sample_rng
    = Ok (v, fun n => sample_rng (S n)) /\
    1 <= v <= 3 /\ (v - 1) * (6 / 3) < 1 <= v * (6 / 3).
Proof.
  apply (DieDivider_keeps_contract (Die.as_die 6) (DieDivider.mk 3) sample_rng 1);
    [simpl; lia | reflexivity | vm_compute; discriminate | reflexivity | simpl; lia].
Defined.

(** ** [DiePerfect.__each] *)

(** [__each] returns, one after the other, the tuples of the product of
    [ranges], each prefixed by [current]; when it returns, [current] and
    [ranges] are what they were at the call, whatever was appended, popped
    and pushed back in between.  A recursion depth above the number of
    ranges is enough. *)
Theorem each_restores_its_arguments (fuel : nat) (current : list Z)
        (ranges : list (list Z)) :
  (length ranges < fuel)%nat ->
  exists results,
    DiePerfect.each fuel current ranges = Some (results, current, ranges) /\
    results = concat (map (app current) (product ranges)) /\
    length results
    = (length (product ranges) * (length current + length ranges))%nat.
Proof.
  intros Hfuel. eexists. split; [apply each_product; exact Hfuel|].
  split; [reflexivity|].
  rewrite (concat_length_uniform _ (length current + length ranges));
    [rewrite length_map; reflexivity|].
  intros t Ht. apply in_map_iff in Ht.
  destruct Ht as (u & <- & Hu). rewrite length_app. f_equal.
  clear Hfuel. revert u Hu. induction ranges as [|range rest IH]; intros u Hu.
  - destruct Hu as [<-|[]]. reflexivity.
  - simpl in Hu. apply in_flat_map in Hu. destruct Hu as (i & _ & Hu).
    apply in_map_iff in Hu. destruct Hu as (u' & <- & Hu'). simpl. f_equal.
    apply IH. exact Hu'.
Qed.

Lemma each_restores_its_arguments_witness :
  DiePerfect.each 3 [7] [[1; 2]; [1; 2; 3]]
  = Some ([7; 1; 1; 7; 1; 2; 7; 1; 3; 7; 2; 1; 7; 2; 2; 7; 2; 3], [7], [[1; 2]; [1; 2; 3]]).
Proof.
  destruct (each_restores_its_arguments 3 [7] [[1; 2]; [1; 2; 3]]) as (results & H & Hr & _);
    [simpl; lia|].
  rewrite H, Hr. reflexivity.
Defined.

(** ** The tally of [DieTester] *)

Lemma sum_map_add {A : Type} (f g : A -> Z) (l : list A) :
  Py.sum (map (fun x => f x + g x) l) = Py.sum (map f l) + Py.sum (map g l).
Proof.
  induction l as [|x l IH]; [reflexivity|].
  simpl map. rewrite !sum_cons, IH. lia.
Qed.

Lemma sum_indicator (h : Z -> Z) (x : Z) (keys : list Z) :
  NoDup keys -> In x keys ->
  Py.sum (map (fun i => if Z.eq_dec x i then h i else 0) keys) = h x.
Proof.
  induction 1 as [|k keys Hk Hnd IH]; intros Hin; [contradiction|].
  simpl map. rewrite sum_cons. destruct Hin as [->|Hin].
  - destruct (Z.eq_dec x x); [|contradiction].
    assert (Hz : Py.sum (map (fun i => if Z.eq_dec x i then h i else 0) keys) = 0).
    { clear IH Hnd. induction keys as [|k' keys IH']; [reflexivity|].
      simpl map. rewrite sum_cons. destruct (Z.eq_dec x k') as [->|_].
      - exfalso. apply Hk. left. reflexivity.
      - rewrite IH'; [lia|]. intros H. apply Hk. right. exact H. }
    lia.
  - destruct (Z.eq_dec x k) as [->|_]; [contradiction|]. rewrite IH by exact Hin. lia.
Qed.

Lemma increment_keys (c : Z -> Z) (keys : list Z) (key : Z) :
  NoDup keys ->
  DieTester.increment (map (fun i => (i, c i)) keys) key
  = if in_dec Z.eq_dec key keys
    then Some (map (fun i => (i, c i + if Z.eq_dec key i then 1 else 0)) keys)
    else None.
Proof.
  induction 1 as [|k keys Hk Hnd IH]; [reflexivity|].
  simpl DieTester.increment. destruct (Z.eqb_spec k key) as [->|Hne].
  - destruct (in_dec Z.eq_dec key (key :: keys)) as [_|Hn]; [|exfalso; apply Hn; left; reflexivity].
    simpl map. destruct (Z.eq_dec key key); [|contradiction].
    do 2 f_equal. apply map_ext_in. intros i Hi.
    destruct (Z.eq_dec key i) as [->|_]; [contradiction|]. f_equal. lia.
  - rewrite IH. destruct (in_dec Z.eq_dec key keys) as [Hin|Hnin].
    + destruct (in_dec Z.eq_dec key (k :: keys)) as [_|Hn]; [|exfalso; apply Hn; right; exact Hin].
      simpl map. destruct (Z.eq_dec key k) as [->|_]; [contradiction|].
      do 3 f_equal. lia.
    + destruct (in_dec Z.eq_dec key (k :: keys)) as [[Heq|Hin]|_]; try reflexivity;
        [congruence | contradiction].
Qed.

Lemma count_all_keys (keys : list Z) (rs : list Z) :
  NoDup keys ->
  forall c : Z -> Z,
    Forall (fun r => In r keys) rs ->
    DieTester.count_all (map (fun i => (i, c i)) keys) rs
    = DieTester.Done (map (fun i => (i, c i + Z.of_nat (count_occ Z.eq_dec rs i))) keys).
Proof.
  intros Hnd. induction rs as [|r rs IH]; intros c Hall.
  - simpl. f_equal. apply map_ext. intros i. f_equal. lia.
  - inversion Hall as [|? ? Hr Hrs]; subst. simpl DieTester.count_all.
    rewrite increment_keys by exact Hnd.
    destruct (in_dec Z.eq_dec r keys) as [_|Hn]; [|contradiction].
    rewrite IH by exact Hrs. f_equal. apply map_ext. intros i. f_equal.
    simpl count_occ. destruct (Z.eq_dec r i); lia.
Qed.

Lemma count_all_KeyError (keys : list Z) (rs1 : list Z) (x : Z) (rs2 : list Z) :
  NoDup keys ->
  forall c : Z -> Z,
    Forall (fun r => In r keys) rs1 -> ~ In x keys ->
    DieTester.count_all (map (fun i => (i, c i)) keys) (rs1 ++ x :: rs2)
    = DieTester.KeyError x.
Proof.
  intros Hnd. induction rs1 as [|r rs1 IH]; intros c Hall Hx.
  - simpl. rewrite increment_keys by exact Hnd.
    destruct (in_dec Z.eq_dec x keys) as [Hy|_]; [contradiction | reflexivity].
  - inversion Hall as [|? ? Hr Hrs]; subst. simpl.
    rewrite increment_keys by exact Hnd.
    destruct (in_dec Z.eq_dec r keys) as [_|Hn]; [|contradiction].
    apply IH; assumption.
Qed.

Lemma tally_totals (keys : list Z) (h : Z -> Z) (rs : list Z) :
  NoDup keys -> Forall (fun r => In r keys) rs ->
  Py.sum (map (fun i => h i * Z.of_nat (count_occ Z.eq_dec rs i)) keys)
  = Py.sum (map h rs).
Proof.
  intros Hnd. induction 1 as [|r rs Hr _ IH].
  - simpl. induction keys as [|k keys IHk]; [reflexivity|].
    inversion Hnd; subst. simpl map. rewrite sum_cons, IHk by assumption.
    unfold Py.sum. simpl. lia.
  - simpl map. rewrite sum_cons, <- IH.
    rewrite <- (sum_indicator h r keys Hnd Hr), <- sum_map_add.
    f_equal. apply map_ext. intros i. simpl count_occ.
    destruct (Z.eq_dec r i); lia.
Qed.

(** A fresh [DieTester] called for [count] rolls of a die whose rolls all
    lie between 1 and [sides] ends with, for every face, the number of
    times it was rolled; [num_rolls] is then the number of rolls and [sum]
    their sum.  A roll outside that range ends the call with a
    [KeyError] for the first such roll. *)
Theorem DieTester_tallies {St : Type} (die : DieBase.t St) (count : Z) (st : St)
        (rs : list Z) (st' : St) :
  DieBase.call die count st = Ok (rs, st') ->
  (Forall (fun r => 1 <= r <= DieBase.sides die) rs ->
   exists tester,
     DieTester.call (DieTester.init die) die count st = DieTester.Done (tester, st') /\
     DieTester.rolls tester
     = map (fun face => (face, Z.of_nat (count_occ Z.eq_dec rs face)))
           (Py.range 1 (DieBase.sides die + 1)) /\
     DieTester.num_rolls tester = Z.of_nat (length rs) /\
     DieTester.sum tester = Py.sum rs) /\
  (forall rs1 x rs2,
      rs = rs1 ++ x :: rs2 ->
      Forall (fun r => 1 <= r <= DieBase.sides die) rs1 ->
      ~ (1 <= x <= DieBase.sides die) ->
      DieTester.call (DieTester.init die) die count st = DieTester.KeyError x).
Proof.
  intros Hcall.
  pose proof (range_NoDup 1 (DieBase.sides die + 1)) as Hnd.
  assert (Hkeys : forall l, Forall (fun r => 1 <= r <= DieBase.sides die) l ->
                            Forall (fun r => In r (Py.range 1 (DieBase.sides die + 1))) l).
  { intros l Hl. eapply Forall_impl; [|exact Hl]. intros r Hr. cbv beta in Hr.
    apply range_In. lia. }
  unfold DieTester.call, DieTester.init. rewrite Hcall. cbn [DieTester.rolls]. split.
  - intros Hall. rewrite count_all_keys by auto. eexists. split; [reflexivity|].
    cbn [DieTester.rolls]. split; [reflexivity|].
    unfold DieTester.num_rolls, DieTester.sum. cbn [DieTester.rolls].
    rewrite !map_map. cbn [fst snd]. split.
    + transitivity (Py.sum (map (fun i => 1 * Z.of_nat (count_occ Z.eq_dec rs i))
                                (Py.range 1 (DieBase.sides die + 1)))).
      * apply f_equal, map_ext. intros i. lia.
      * rewrite (tally_totals _ (fun _ => 1)) by auto.
        clear. induction rs as [|r rs IH]; [reflexivity|].
        simpl map. rewrite sum_cons, IH. simpl length. lia.
    + transitivity (Py.sum (map (fun i => i * Z.of_nat (count_occ Z.eq_dec rs i))
                                (Py.range 1 (DieBase.sides die + 1)))).
      * apply f_equal, map_ext. intros i. lia.
      * rewrite (tally_totals _ (fun i => i)) by auto. rewrite map_id. reflexivity.
  - intros rs1 x rs2 -> Hall Hx. rewrite count_all_KeyError; auto.
    intros Hin. apply range_In in Hin. lia.
Qed.

(** The tally of [test_d3_from_d6], and a [KeyError]: a [DieDivider] for
    -3 sides over a six-sided die turns the draw 1 into 0, which is no
    key of the (empty) tally. *)
Lemma DieTester_tallies_witness :
  (exists tester st',
      DieTester.call (DieTester.init (DieDivider.as_die (DieDivider.mk 3)
                                        (DiePerfect.as_die (enum_at 6 1 0 0))))
                     (DieDivider.as_die (DieDivider.mk 3)
                                        (DiePerfect.as_die (enum_at 6 1 0 0)))
                     6 (enum_at 6 1 0 0)
      = DieTester.Done (tester, st') /\
      DieTester.rolls tester = [(1, 2); (2, 2); (3, 2)] /\
      DieTester.num_rolls tester = 6 /\ DieTester.sum tester = 12) /\
  DieTester.call (DieTester.init (DieDivider.as_die (DieDivider.mk (-3)) (Die.as_die 6)))
                 (DieDivider.as_die (DieDivider.mk (-3)) (Die.as_die 6))
                 1 sample_rng
  = DieTester.KeyError 0.
Proof.
  split.
  - set (die := DieDivider.as_die (DieDivider.mk 3) (DiePerfect.as_die (enum_at 6 1 0 0))).
    destruct (DieTester_tallies die 6 (enum_at 6 1 0 0) [1; 1; 2; 2; 3; 3] (enum_at 6 1 6 0))
      as [Hok _]; [vm_compute; reflexivity|].
    destruct Hok as (tester & Hcall & Hrolls & Hnum & Hsum);
      [repeat constructor; simpl; lia|].
    exists tester, (enum_at 6 1 6 0). split; [exact Hcall|].
    split; [rewrite Hrolls; reflexivity|]. split; [exact Hnum | exact Hsum].
  - set (die := DieDivider.as_die (DieDivider.mk (-3)) (Die.as_die 6)).
    destruct (DieTester_tallies die 1 sample_rng [0] (fun n => sample_rng (S n)))
      as [_ Hkey]; [vm_compute; reflexivity|].
    apply (Hkey [] 0 []); [reflexivity | constructor | simpl; lia].
Defined.

(** ** Rolls that need no second attempt *)

Lemma composite_bounds (b : Z) (t : list Z) :
  1 <= b -> Forall (fun d => 1 <= d <= b) t ->
  0 <= composite_msd b t < b ^ Z.of_nat (length t) /\
  0 <= composite_lsd b t < b ^ Z.of_nat (length t).
Proof.
  intros Hb Hall.
  assert (Hm : forall u, In u (batches b (length t)) ->
                         0 <= composite_msd b u < b ^ Z.of_nat (length t)).
  { intros u Hu. apply (in_map (composite_msd b)) in Hu.
    rewrite msd_batches in Hu by lia. apply range_In in Hu. lia. }
  split.
  - apply Hm. apply batches_In. auto.
  - rewrite <- (rev_involutive t) at 1 2. rewrite composite_lsd_rev.
    apply Hm. apply batches_In. split; [apply length_rev | apply Forall_rev; exact Hall].
Qed.

(** When [sides] is exactly [source.sides ^ num_dice] a [DiePower] accepts
    every batch, and when [sides] divides [source.sides ^ num_dice] a
    constructed [DieCombo] does: the first batch drawn from a source that
    keeps its contract is returned, whatever it is. *)
Theorem first_batch_accepted (sides : Z) {St : Type} (source : DieBase.t St)
        (fuel0 fuel : nat) (st : St) :
  1 <= sides -> 1 <= DieBase.sides source ->
  (forall p batch st',
      DiePower.init fuel0 sides source = Ok p ->
      DieBase.sides source ^ DiePower.num_dice p = sides ->
      DieBase.call source (DiePower.num_dice p) st = Ok (batch, st') ->
      Forall (fun d => 1 <= d <= DieBase.sides source) batch ->
      DiePower.roll (S fuel) p source st
      = Ok (1 + composite_lsd (DieBase.sides source) batch, st')) /\
  (forall c batch st',
      DieCombo.init fuel0 sides source = Ok c ->
      DieBase.sides source ^ DieCombo.num_dice c mod sides = 0 ->
      DieBase.call source (DieCombo.num_dice c) st = Ok (batch, st') ->
      Forall (fun d => 1 <= d <= DieBase.sides source) batch ->
      DieCombo.roll (S fuel) c source st
      = Ok (composite_msd (DieBase.sides source) batch / DieCombo.divider c + 1, st')).
Proof.
  intros Hs Hb. split.
  - intros p batch st' Hp Hpow Hcall Hall.
    apply DiePower_init_Ok in Hp. destruct Hp as (n & Hn & ->).
    apply num_dice_loop_sound in Hn. destruct Hn as (Hn0 & _ & _).
    cbn [DiePower.num_dice DiePower.sides] in *.
    pose proof (call_length _ _ _ _ _ Hcall) as Hlen.
    destruct (composite_bounds _ _ Hb Hall) as [_ Hlsd].
    rewrite Hlen, Z2Nat.id, Hpow in Hlsd by exact Hn0.
    simpl. unfold bind. rewrite Hcall. cbn [DiePower.sides].
    rewrite DiePower_value_composite.
    destruct (Z.gtb_spec (1 + composite_lsd (DieBase.sides source) batch) sides);
      [lia | reflexivity].
  - intros c batch st' Hc Hmod Hcall Hall.
    destruct (DieCombo_divider _ _ _ _ Hc) as (Hn0 & Hsides & Hdiv & Hpos & _).
    specialize (Hpos ltac:(lia)).
    pose proof (call_length _ _ _ _ _ Hcall) as Hlen.
    destruct (composite_bounds _ _ Hb Hall) as [Hmsd _].
    rewrite Hlen, Z2Nat.id in Hmsd by exact Hn0.
    pose proof (Z.div_exact (DieBase.sides source ^ DieCombo.num_dice c) sides ltac:(lia))
      as [_ Hex].
    specialize (Hex Hmod). rewrite <- Hdiv in Hex.
    assert (Hq : composite_msd (DieBase.sides source) batch / DieCombo.divider c < sides)
      by (apply Z.div_lt_upper_bound; nia).
    simpl. unfold bind, lift. rewrite Hcall.
    rewrite DieCombo_value_composite by lia. rewrite Hsides.
    destruct (Z.gtb_spec (composite_msd (DieBase.sides source) batch
                          / DieCombo.divider c + 1) sides);
      [lia | reflexivity].
Qed.

(** A 12-sided [DieCombo] over two six-sided dice accepts (6,6). *)
Lemma first_batch_accepted_witness :
  DieCombo.roll 1 (DieCombo.mk 12 2 3) (DiePerfect.as_die (enum_at 6 2 0 0))
                (enum_at 6 2 70 35)
  = Ok (12, enum_at 6 2 72 0).
Proof.
  destruct (first_batch_accepted 12 (DiePerfect.as_die (enum_at 6 2 0 0)) 3 0
              (enum_at 6 2 70 35)) as [_ Hc]; [lia | simpl; lia |].
  apply (Hc (DieCombo.mk 12 2 3) [6; 6] (enum_at 6 2 72 0));
    [reflexivity | reflexivity | vm_compute; reflexivity | repeat constructor; simpl; lia].
Defined.

(** ** Failures of the source *)

(** A derived die never hides a failure of its source: when the source
    cannot be rolled, rolling a [DieDivider] with a non-zero number of
    sides, or a [DiePower] or [DieCombo] that needs at least one die, ends
    in the very exception the source raised. *)
Theorem source_failure_propagates {St : Type} (source : DieBase.t St) (st : St)
        (e : exn) (fuel : nat) :
  DieBase.roll source st = Raise e ->
  (forall d, DieDivider.sides d <> 0 -> DieDivider.roll d source st = Raise e) /\
  (forall p, 1 <= DiePower.num_dice p -> DiePower.roll (S fuel) p source st = Raise e) /\
  (forall c, 1 <= DieCombo.num_dice c -> DieCombo.roll (S fuel) c source st = Raise e).
Proof.
  intros Hroll.
  assert (Hcall : forall n, 1 <= n -> DieBase.call source n st = Raise e).
  { intros n Hn. unfold DieBase.call.
    destruct (Z.to_nat n) as [|k] eqn:E; [lia|].
    simpl. unfold bind. rewrite Hroll. reflexivity. }
  split; [|split].
  - intros d Hd. unfold DieDivider.roll, bind, lift, Py.floordiv.
    destruct (Z.eqb_spec (DieDivider.sides d) 0); [contradiction|].
    rewrite Hroll. reflexivity.
  - intros p Hp. simpl. unfold bind. rewrite Hcall by exact Hp. reflexivity.
  - intros c Hc. simpl. unfold bind. rewrite Hcall by exact Hc. reflexivity.
Qed.

(** A [DiePower] built over an enumeration die without dice: the first
    roll ends in [StopIteration]. *)
Lemma source_failure_propagates_witness :
  DiePerfect.init 6 0 = Ok (enum_at 6 0 0 0) /\
  DiePower.init 3 16 (DiePerfect.as_die (enum_at 6 0 0 0)) = Ok (DiePower.mk 16 2) /\
  DiePower.roll 1 (DiePower.mk 16 2) (DiePerfect.as_die (enum_at 6 0 0 0)) (enum_at 6 0 0 0)
  = Raise StopIteration.
Proof.
  split; [reflexivity|]. split; [reflexivity|].
  destruct (source_failure_propagates (DiePerfect.as_die (enum_at 6 0 0 0))
              (enum_at 6 0 0 0) StopIteration 0 eq_refl) as (_ & Hp & _).
  apply Hp. simpl. lia.
Defined.
